(** * Thirsty: the query planner and the proximity filter of [thirsty/core.py]

    A shallow embedding of the functions of [src/thirsty/core.py] that plan
    the Overpass query cells around a GPX track, deduplicate the returned
    points of interest and keep those close to the track.

    Conventions of the embedding.
    - Python [float]s are read as real numbers ([R]): arithmetic is exact,
      rounding, infinities and NaN are outside the model.  Comparisons are
      decided with [Rle_dec] and [Rlt_dec].
    - Python exceptions are values of [exception]; a function that may raise
      returns a [result].
    - [scipy.spatial.KDTree] is a library, not code of the repository: it is
      the interface [GeoIndex], with the linear scan [ScanIndex] as an
      instance.
    - The recursion of [get_relevant_bboxes] is bounded by the interpreter's
      recursion limit; the limit is the [fuel] of the embedding and reaching
      it raises [RecursionError]. *)

From Stdlib Require Import Reals Lra Lia ZArith.
From stdpp Require Import gmap strings list.

(** ** Exceptions and results *)

Inductive exception : Type :=
  | ZeroDivisionError
  | RecursionError
  | IndexError
  | KeyError (key : string)
  | RequestException.

Inductive result (A : Type) : Type :=
  | Ok (a : A)
  | Raise (e : exception).
Arguments Ok {A} a.
Arguments Raise {A} e.

Definition rbind {A B} (r : result A) (k : A -> result B) : result B :=
  match r with
  | Ok a => k a
  | Raise e => Raise e
  end.

Declare Scope result_scope.
Delimit Scope result_scope with result.
Notation "x <- r ;; k" := (rbind r (fun x => k))
  (at level 100, r at next level, right associativity) : result_scope.
Local Open Scope result_scope.

(** ** Deciding comparisons of reals *)

#[global] Instance Rle_decision (x y : R) : Decision (x <= y)%R := Rle_dec x y.
#[global] Instance Rlt_decision (x y : R) : Decision (x < y)%R := Rlt_dec x y.

(** ** The data model *)

(** A point of the track, [pt.latitude] and [pt.longitude]. *)
Record TrackPoint : Type := mkPoint { latitude : R; longitude : R }.

(** [gpx.tracks], [trk.segments], [seg.points]. *)
Record Segment : Type := mkSegment { points : list TrackPoint }.
Record Track : Type := mkTrack { segments : list Segment }.
Record GPX : Type := mkGPX { tracks : list Track }.

(** The points in the order of the three nested loops
    [for trk in gpx.tracks: for seg in trk.segments: for pt in seg.points]. *)
Definition gpx_points (gpx : GPX) : list TrackPoint :=
  flat_map (fun trk => flat_map points (segments trk)) (tracks gpx).

(** A bounding box is the tuple [(south, west, north, east)]. *)
Abbreviation BBox := (R * R * R * R)%type.

(** A pair [(lat, lon)] of [track_points_coords]. *)
Abbreviation Coord := (R * R)%type.

(** A record of the Overpass answer: [poi.get('id')], [poi["lat"]],
    [poi["lon"]] and [poi["tags"]]. *)
Record POI : Type := mkPOI {
  poi_id : option Z;
  poi_lat : R;
  poi_lon : R;
  poi_tags : list (string * string)
}.

(** ** [get_bounds] *)

Definition APPROX_DEGREES_PER_METER : R := (1 / 111320)%R.

(** The four running extremes [(min_lat, max_lat, min_lon, max_lon)].
    [None] is the state before the first point: [found_points] is [False]
    and the extremes hold their infinite initial values, so the first point
    sets all four ([min(inf, x) = x], [max(-inf, x) = x]). *)
Definition extremes : Type := option (R * R * R * R).

Definition bounds_step (acc : extremes) (pt : TrackPoint) : extremes :=
  match acc with
  | None =>
      Some (latitude pt, latitude pt, longitude pt, longitude pt)
  | Some (min_lat, max_lat, min_lon, max_lon) =>
      Some (Rmin min_lat (latitude pt), Rmax max_lat (latitude pt),
            Rmin min_lon (longitude pt), Rmax max_lon (longitude pt))
  end.

Definition get_bounds (gpx : GPX) (max_distance_m : R) : option BBox :=
  let approx_degrees_per_meter := (1 / 111320)%R in
  let angular_margin := (max_distance_m * approx_degrees_per_meter * 1.5)%R in
  match fold_left bounds_step (gpx_points gpx) None with
  | None => None
  | Some (min_lat, max_lat, min_lon, max_lon) =>
      Some ((min_lat - angular_margin)%R, (min_lon - angular_margin)%R,
            (max_lat + angular_margin)%R, (max_lon + angular_margin)%R)
  end.

(** ** [_subdivide_bbox] *)

(** [range(n)]: the integers [0, 1, ..., n-1], empty when [n <= 0]. *)
Definition range (n : Z) : list Z := Z.of_nat <$> seq 0 (Z.to_nat n).

(** The two divisions by [lat_divisions] and [lon_divisions] raise
    [ZeroDivisionError] on a zero divisor, in the order of the source. *)
Definition _subdivide_bbox (bbox : BBox) (lat_divisions lon_divisions : Z)
  : result (list BBox) :=
  let '(south, west, north, east) := bbox in
  if decide (lat_divisions = 0%Z) then Raise ZeroDivisionError else
  let lat_step := ((north - south) / IZR lat_divisions)%R in
  if decide (lon_divisions = 0%Z) then Raise ZeroDivisionError else
  let lon_step := ((east - west) / IZR lon_divisions)%R in
  Ok (flat_map (fun i =>
        (fun j =>
           let sub_south := (south + IZR i * lat_step)%R in
           let sub_north := (south + IZR (i + 1)%Z * lat_step)%R in
           let sub_west := (west + IZR j * lon_step)%R in
           let sub_east := (west + IZR (j + 1)%Z * lon_step)%R in
           (sub_south, sub_west, sub_north, sub_east)) <$> range lon_divisions)
      (range lat_divisions)).

(** ** The spatial index *)

(** The distance of the index: Euclidean, on raw degrees. *)
Definition euclid (p c : Coord) : R :=
  sqrt ((p.1 - c.1) ^ 2 + (p.2 - c.2) ^ 2).

(** [scipy.spatial.KDTree]: [KDTree(points)] builds the index and
    [tree.query_ball_point(x, r)] returns the indices of the points within
    distance [r] of [x], in no specified order. *)
Class GeoIndex : Type := {
  kdtree : Type;
  KDTree : list Coord -> kdtree;
  query_ball_point : kdtree -> Coord -> R -> list nat;
  query_ball_point_spec : forall (pts : list Coord) (c : Coord) (r : R) (i : nat),
    i ∈ query_ball_point (KDTree pts) c r <->
    exists p, pts !! i = Some p /\ (euclid p c <= r)%R
}.

(** The index as a linear scan, answers in increasing order. *)
Fixpoint scan_ball (pts : list Coord) (c : Coord) (r : R) (i : nat) : list nat :=
  match pts with
  | [] => []
  | p :: rest =>
      if decide (euclid p c <= r)%R then i :: scan_ball rest c r (S i)
      else scan_ball rest c r (S i)
  end.

(** ** [haversine] *)

(** [math.radians]. *)
Definition radians (deg : R) : R := (deg * PI / 180)%R.

(** [math.atan2 y x], the angle of the point [(x, y)] in [(-PI, PI]]. *)
Definition atan2 (y x : R) : R :=
  if decide (0 < x)%R then atan (y / x)
  else if decide (x < 0)%R then
    (if decide (0 <= y)%R then atan (y / x) + PI else atan (y / x) - PI)%R
  else if decide (0 < y)%R then (PI / 2)%R
  else if decide (y < 0)%R then (- PI / 2)%R
  else 0%R.

Definition haversine (lat1 lon1 lat2 lon2 : R) : R :=
  let R_earth := 6371000%R in
  let phi1 := radians lat1 in
  let phi2 := radians lat2 in
  let d_phi := radians (lat2 - lat1) in
  let d_lambda := radians (lon2 - lon1) in
  let a := (sin (d_phi / 2) ^ 2
            + cos phi1 * cos phi2 * sin (d_lambda / 2) ^ 2)%R in
  let c := (2 * atan2 (sqrt a) (sqrt (1 - a)))%R in
  (R_earth * c)%R.

(** ** [deduplicate_pois_by_id] *)

(** The state of the loop: [seen_ids], [unique_pois] and the records the
    console was warned about. *)
Definition dedup_state : Type := (gset Z * list POI * list POI)%type.

Definition dedup_step (st : dedup_state) (poi : POI) : dedup_state :=
  let '(seen_ids, unique_pois, warned) := st in
  match poi_id poi with
  | Some i =>
      if decide (i ∉ seen_ids)
      then ({[ i ]} ∪ seen_ids, unique_pois ++ [poi], warned)
      else st
  | None => (seen_ids, unique_pois, warned ++ [poi])
  end.

(** Returns [unique_pois] and, beside it, the records logged with the
    warning "POI found without 'id' key". *)
Definition deduplicate_pois_by_id (pois : list POI) : list POI * list POI :=
  let '(_, unique_pois, warned) := fold_left dedup_step pois (∅, [], []) in
  (unique_pois, warned).

Section Planner.
Context `{GI : GeoIndex}.

(** ** [_bbox_contains_gpx_points] *)

(** The loop over [potential_indices]; [gpx_points_coords[idx]] raises
    [IndexError] out of range. *)
Fixpoint any_in_dilated (gpx_points_coords : list Coord)
    (dilated_south dilated_north dilated_west dilated_east : R)
    (potential_indices : list nat) : result bool :=
  match potential_indices with
  | [] => Ok false
  | idx :: rest =>
      match gpx_points_coords !! idx with
      | None => Raise IndexError
      | Some (lat, lon) =>
          if decide ((dilated_south <= lat /\ lat <= dilated_north) /\
                     (dilated_west <= lon /\ lon <= dilated_east))%R
          then Ok true
          else any_in_dilated gpx_points_coords
                 dilated_south dilated_north dilated_west dilated_east rest
      end
  end.

Definition _bbox_contains_gpx_points (bbox : BBox) (gpx_kdtree : kdtree)
    (gpx_points_coords : list Coord) : result bool :=
  let '(south, west, north, east) := bbox in
  let lat_margin := ((north - south) * 0.05)%R in
  let lon_margin := ((east - west) * 0.05)%R in
  let dilated_south := (south - lat_margin)%R in
  let dilated_north := (north + lat_margin)%R in
  let dilated_west := (west - lon_margin)%R in
  let dilated_east := (east + lon_margin)%R in
  let center_lat := ((dilated_south + dilated_north) / 2)%R in
  let center_lon := ((dilated_west + dilated_east) / 2)%R in
  let diagonal_lat_deg := (dilated_north - dilated_south)%R in
  let diagonal_lon_deg := (dilated_east - dilated_west)%R in
  let approx_bbox_radius_deg :=
    (sqrt (diagonal_lat_deg ^ 2 + diagonal_lon_deg ^ 2) / 2)%R in
  let potential_indices :=
    query_ball_point gpx_kdtree (center_lat, center_lon)
      (approx_bbox_radius_deg * 1.1)%R in
  any_in_dilated gpx_points_coords
    dilated_south dilated_north dilated_west dilated_east potential_indices.

(** ** [get_relevant_bboxes] *)

(** [for x in xs: acc.extend(f(x))]. *)
Fixpoint extend_each {A B} (f : A -> result (list B)) (xs : list A)
    (acc : list B) : result (list B) :=
  match xs with
  | [] => Ok acc
  | x :: rest => r <- f x ;; extend_each f rest (acc ++ r)
  end.

Definition bbox_area (bbox : BBox) : R :=
  let '(south, west, north, east) := bbox in
  ((north - south) * (east - west))%R.

Fixpoint get_relevant_bboxes (fuel : nat) (bbox : BBox) (gpx_kdtree : kdtree)
    (gpx_points_coords : list Coord) (max_bbox_area_sq_deg : R)
    (lat_divisions lon_divisions : Z) : result (list BBox) :=
  match fuel with
  | O => Raise RecursionError
  | S fuel' =>
      let current_bbox_area := bbox_area bbox in
      contains <- _bbox_contains_gpx_points bbox gpx_kdtree gpx_points_coords ;;
      if negb contains then Ok []
      else if decide (current_bbox_area <= max_bbox_area_sq_deg)%R then Ok [bbox]
      else
        sub_bboxes <- _subdivide_bbox bbox lat_divisions lon_divisions ;;
        extend_each
          (fun sub_bbox =>
             get_relevant_bboxes fuel' sub_bbox gpx_kdtree gpx_points_coords
               max_bbox_area_sq_deg lat_divisions lon_divisions)
          sub_bboxes []
  end.

(** ** [filter_pois_near_track] *)

(** The loop over [indices_in_range], left by [break] at the first track
    point closer than [max_distance_m]. *)
Fixpoint near_any (track_points_coords : list Coord) (poi_lat poi_lon : R)
    (max_distance_m : R) (indices_in_range : list nat) : result bool :=
  match indices_in_range with
  | [] => Ok false
  | idx :: rest =>
      match track_points_coords !! idx with
      | None => Raise IndexError
      | Some (track_point_lat, track_point_lon) =>
          if decide (haversine poi_lat poi_lon track_point_lat track_point_lon
                     < max_distance_m)%R
          then Ok true
          else near_any track_points_coords poi_lat poi_lon max_distance_m rest
      end
  end.

Fixpoint filter_loop (track_points_coords : list Coord) (kd : kdtree)
    (kdtree_radius_degrees max_distance_m : R) (pois : list POI)
    (nearby_pois : list POI) : result (list POI) :=
  match pois with
  | [] => Ok nearby_pois
  | poi :: rest =>
      let poi_lat := poi_lat poi in
      let poi_lon := poi_lon poi in
      let indices_in_range :=
        query_ball_point kd (poi_lat, poi_lon) kdtree_radius_degrees in
      keep <- near_any track_points_coords poi_lat poi_lon max_distance_m
                indices_in_range ;;
      filter_loop track_points_coords kd kdtree_radius_degrees max_distance_m
        rest (if (keep : bool) then nearby_pois ++ [poi] else nearby_pois)
  end.

Definition filter_pois_near_track (track_points_coords : list Coord)
    (kd : kdtree) (pois : list POI) (max_distance_m : R) : result (list POI) :=
  let approx_degrees_per_meter := (1 / 111320)%R in
  let kdtree_radius_degrees :=
    (max_distance_m * approx_degrees_per_meter * 1.5)%R in
  filter_loop track_points_coords kd kdtree_radius_degrees max_distance_m
    pois [].
End Planner.

(** ** The Overpass query *)

Definition AMENITIES : list (string * string) := [
  ("water", "[amenity=drinking_water]");
  ("point", "[amenity=water_point][drinking_water=yes]");
  ("tap", "[man_made=water_tap][drinking_water=yes]");
  ("spring", "[natural=spring][drinking_water=yes]");
  ("fountain", "[amenity=fountain][drinking_water=yes]");
  ("bakery", "[shop=bakery]");
  ("cafe", "[amenity=cafe]");
  ("fuel_convenience", "[amenity=fuel][shop=convenience]");
  ("convenience_store", "[shop=convenience]");
  ("pizza_vending", "[amenity=vending_machine][vending=pizza]")
]%string.

(** [d[key]] on a dictionary given by its items. *)
Fixpoint dict_get (d : list (string * string)) (key : string) : result string :=
  match d with
  | [] => Raise (KeyError key)
  | (k, v) :: rest => if decide (k = key) then Ok v else dict_get rest key
  end.

(** The loop that builds [query_parts]: one tag filter per POI type. *)
Fixpoint tag_filters (poi_types : list string) : result (list string) :=
  match poi_types with
  | [] => Ok []
  | poi_type :: rest =>
      tag_filter <- dict_get AMENITIES poi_type ;;
      parts <- tag_filters rest ;;
      Ok (tag_filter :: parts)
  end.

(** What one call of [requests.post] sends: the tag filters and the box of
    the Overpass QL text. *)
Record Request : Type := mkRequest {
  req_bbox : BBox;
  req_filters : list string
}.

(** Code that talks to the network: it reads the requests sent so far and
    returns them with its own appended, also when it raises. *)
Definition IO (A : Type) : Type := list Request -> result A * list Request.

Definition io_ret {A} (a : A) : IO A := fun sent => (Ok a, sent).

Definition io_lift {A} (r : result A) : IO A := fun sent => (r, sent).

Definition io_bind {A B} (c : IO A) (k : A -> IO B) : IO B :=
  fun sent =>
    match c sent with
    | (Ok a, sent') => k a sent'
    | (Raise e, sent') => (Raise e, sent')
    end.

Declare Scope io_scope.
Delimit Scope io_scope with io.
Notation "x <- c ;; k" := (io_bind c (fun x => k))
  (at level 100, c at next level, right associativity) : io_scope.

Section Orchestrator.
Context `{GI : GeoIndex}.

(** The exchange with [OVERPASS_URL]: [requests.post], [raise_for_status]
    and [response.json()["elements"]]. *)
Variable post : Request -> result (list POI).

(** The interpreter's recursion limit. *)
Variable recursion_limit : nat.

Definition query_overpass (bbox : BBox) (poi_types : list string)
    (gpx_kdtree : kdtree) : IO (list POI) :=
  (query_parts <- io_lift (tag_filters poi_types) ;;
   let request := mkRequest bbox query_parts in
   fun sent => (post request, sent ++ [request]))%io.

(** [for bbox in bboxes: pois.extend(query_overpass(bbox, ...))]. *)
Fixpoint query_each (bboxes : list BBox) (poi_types : list string)
    (gpx_kdtree : kdtree) (pois : list POI) : IO (list POI) :=
  match bboxes with
  | [] => io_ret pois
  | bbox :: rest =>
      (elements <- query_overpass bbox poi_types gpx_kdtree ;;
       query_each rest poi_types gpx_kdtree (pois ++ elements))%io
  end.

(** ** [process_gpx_and_pois]

    The function from the parsed GPX on: [sanitize_gpx_text] and
    [gpxpy.parse] come before and are not modelled. *)
Definition process_gpx_and_pois (gpx : GPX) (poi_types : list string)
    (max_distance_m max_bbox_area_sq_deg : R) (lat_divisions lon_divisions : Z)
    (show_bboxes : bool) : IO (GPX * list POI * option (list BBox)) :=
  let bounds := get_bounds gpx max_distance_m in
  match bounds with
  | None => io_ret (gpx, [], Some [])
  | Some bounds =>
      let track_points_coords :=
        (fun pt => (latitude pt, longitude pt)) <$> gpx_points gpx in
      match track_points_coords with
      | [] => io_ret (gpx, [], Some [])
      | _ :: _ =>
          let gpx_kdtree := KDTree track_points_coords in
          (bboxes <- io_lift
             (get_relevant_bboxes recursion_limit bounds gpx_kdtree
                track_points_coords max_bbox_area_sq_deg
                lat_divisions lon_divisions) ;;
           let collected_bboxes := if show_bboxes then Some bboxes else None in
           pois <- query_each bboxes poi_types gpx_kdtree [] ;;
           let deduplicated_pois := (deduplicate_pois_by_id pois).1 in
           filtered_pois <- io_lift
             (filter_pois_near_track track_points_coords gpx_kdtree
                deduplicated_pois max_distance_m) ;;
           io_ret (gpx, filtered_pois, collected_bboxes))%io
      end
  end.
End Orchestrator.

(** ** [sanitize_gpx_text]

    The text is its sequence of UTF-8 bytes; the byte of ['&'] and those of
    the five entity tails occur in UTF-8 only as these ASCII characters. *)

From Stdlib Require Import Ascii.

(** The alternatives of the negative lookahead [(?!amp;|quot;|lt;|gt;|apos;)]. *)
Definition entity_tails : list string :=
  ["amp;"; "quot;"; "lt;"; "gt;"; "apos;"]%string.

(** The lookahead fails: the text that follows starts with an entity tail. *)
Definition entity_follows (rest : string) : bool :=
  existsb (fun tail => String.prefix tail rest) entity_tails.

(** [re.sub(r'&(?!amp;|quot;|lt;|gt;|apos;)', '&amp;', data)]: from left to
    right, each ['&'] that no entity tail follows becomes ["&amp;"]; the
    lookahead reads the input text. *)
Fixpoint sanitize_gpx_text (data : string) : string :=
  match data with
  | EmptyString => EmptyString
  | String c rest =>
      if Ascii.eqb c "&"%char then
        if entity_follows rest then String "&"%char (sanitize_gpx_text rest)
        else ("&amp;" ++ sanitize_gpx_text rest)%string
      else String c (sanitize_gpx_text rest)
  end.

(** ** Tags of a POI *)

(** [tags.get(key)] on the dictionary [poi['tags']], given by its items. *)
Fixpoint tags_get (tags : list (string * string)) (key : string) : option string :=
  match tags with
  | [] => None
  | (k, v) :: rest => if decide (k = key) then Some v else tags_get rest key
  end.

(** The truth value of [tag] in [if tag:]: present and not empty. *)
Definition truthy (tag : option string) : bool :=
  match tag with
  | Some s => negb (String.eqb s "")
  | None => false
  end.

(** [tag == text]. *)
Definition tag_is (tag : option string) (text : string) : bool :=
  match tag with
  | Some s => String.eqb s text
  | None => false
  end.

(** [amenity in ['drinking_water', 'water_point', 'fountain'] or
    natural == 'spring' or (man_made == 'water_tap' and
    tags.get('drinking_water') == 'yes')]. *)
Definition is_water (tags : list (string * string)) : bool :=
  (tag_is (tags_get tags "amenity") "drinking_water"
   || tag_is (tags_get tags "amenity") "water_point"
   || tag_is (tags_get tags "amenity") "fountain")
  || tag_is (tags_get tags "natural") "spring"
  || (tag_is (tags_get tags "man_made") "water_tap"
      && tag_is (tags_get tags "drinking_water") "yes").

(** [tags.get('name', 'POI sans nom')]. *)
Definition poi_name (tags : list (string * string)) : string :=
  default "POI sans nom"%string (tags_get tags "name").

(** ** [add_waypoints_to_gpx] *)

(** A [gpxpy.gpx.GPXWaypoint] with the fields the function sets. *)
Record GPXWaypoint : Type := mkWaypoint {
  wpt_latitude : R;
  wpt_longitude : R;
  wpt_symbol : string;
  wpt_name : string;
  wpt_description : string
}.

(** [text.replace('_', ' ')]. *)
Fixpoint replace_underscores (text : string) : string :=
  match text with
  | EmptyString => EmptyString
  | String c rest =>
      String (if Ascii.eqb c "_"%char then " "%char else c)
             (replace_underscores rest)
  end.

Section Waypoints.
(** [str.title], a method of Python's strings. *)
Variable title : string -> string.
Local Open Scope string_scope.

(** The body of the loop: the waypoint of one POI. *)
Definition make_waypoint (poi : POI) : GPXWaypoint :=
  let tags := poi_tags poi in
  let poi_name := poi_name tags in
  let amenity_tag := tags_get tags "amenity" in
  let shop_tag := tags_get tags "shop" in
  let natural_tag := tags_get tags "natural" in
  let man_made_tag := tags_get tags "man_made" in
  let vending_tag := tags_get tags "vending" in
  let wpt symbol description :=
    mkWaypoint (poi_lat poi) (poi_lon poi) symbol poi_name description in
  if tag_is shop_tag "bakery" then
    wpt "food" (poi_name ++ " (Bakery)")
  else if tag_is amenity_tag "cafe" then
    wpt "meals" (poi_name ++ " (Cafe)")
  else if tag_is amenity_tag "fuel" && tag_is shop_tag "convenience" then
    wpt "gas" (poi_name ++ " (Fuel with Convenience Store)")
  else if tag_is shop_tag "convenience" && negb (tag_is amenity_tag "fuel") then
    wpt "store" (poi_name ++ " (Convenience Store)")
  else if tag_is amenity_tag "vending_machine" && tag_is vending_tag "pizza" then
    wpt "pizza" (poi_name ++ " (Pizza Vending Machine)")
  else if is_water tags then
    wpt "water-drop" (poi_name ++ " (Water)")
  else
    wpt "generic"
      (if truthy amenity_tag then
         poi_name ++ " (" ++ title (replace_underscores (default "" amenity_tag))
           ++ ")"
       else if truthy shop_tag then
         poi_name ++ " (" ++ title (replace_underscores (default "" shop_tag))
           ++ ")"
       else if truthy vending_tag then
         poi_name ++ " (Vending Machine: "
           ++ title (replace_underscores (default "" vending_tag)) ++ ")"
       else poi_name ++ " (Unknown POI Type)").

(** The function on the list [gpx.waypoints], the part of the GPX object it
    changes: one [append] per POI. *)
Definition add_waypoints_to_gpx (waypoints : list GPXWaypoint) (pois : list POI)
  : list GPXWaypoint :=
  fold_left (fun waypoints poi => (waypoints ++ [make_waypoint poi])%list) pois
    waypoints.
End Waypoints.

(** ** [display_gpx_on_map] *)

(** What is added to the folium map, with the arguments of the calls. *)
Inductive MapLayer : Type :=
  | PolyLine (locations : list Coord) (color : string) (weight opacity : R)
  | Polygon (locations : list Coord) (color : string) (weight : R)
      (fill : bool) (fill_color : string) (fill_opacity : R)
  | Marker (location : Coord) (popup : string) (max_width : Z)
      (icon_color icon_name icon_prefix : string).

(** A [folium.Map]: its centre, its zoom and its layers in the order of the
    calls of [add_to]. *)
Record FoliumMap : Type := mkMap {
  map_location : Coord;
  map_zoom_start : Z;
  map_layers : list MapLayer
}.

(** [sum(values)]: starts from 0 and adds from the left. *)
Definition py_sum (values : list R) : R := fold_left Rplus values 0%R.

(** [sum(values) / len(values)]. *)
Definition py_mean (values : list R) : result R :=
  match values with
  | [] => Raise ZeroDivisionError
  | _ :: _ => Ok (py_sum values / INR (length values))%R
  end.

(** The colour and the name of the icon of a POI. *)
Definition poi_icon (tags : list (string * string)) : string * string :=
  let amenity_tag := tags_get tags "amenity" in
  let shop_tag := tags_get tags "shop" in
  let vending_tag := tags_get tags "vending" in
  if tag_is shop_tag "bakery" then ("green", "cutlery")
  else if is_water tags then ("blue", "tint")
  else if tag_is amenity_tag "cafe" then ("darkred", "coffee")
  else if tag_is amenity_tag "fuel" && tag_is shop_tag "convenience" then
    ("orange", "gas-pump")
  else if tag_is shop_tag "convenience" && negb (tag_is amenity_tag "fuel") then
    ("purple", "shopping-cart")
  else if tag_is amenity_tag "vending_machine" && tag_is vending_tag "pizza" then
    ("darkred", "pizza-slice")
  else ("darkblue", "info-sign")%string.

(** The type shown in the popup. *)
Definition poi_type_display (tags : list (string * string)) : string :=
  let amenity_tag := tags_get tags "amenity" in
  let shop_tag := tags_get tags "shop" in
  let natural_tag := tags_get tags "natural" in
  let man_made_tag := tags_get tags "man_made" in
  let vending_tag := tags_get tags "vending" in
  (if truthy amenity_tag then default "" amenity_tag
   else if truthy shop_tag then default "" shop_tag
   else if truthy natural_tag then default "" natural_tag
   else if truthy man_made_tag then default "" man_made_tag
   else if truthy vending_tag then
     "vending_machine (" ++ default "" vending_tag ++ ")"
   else "Type inconnu")%string.

Definition poi_marker (poi : POI) : MapLayer :=
  let tags := poi_tags poi in
  let '(icon_color, icon_name) := poi_icon tags in
  Marker (poi_lat poi, poi_lon poi)
    (poi_name tags ++ ": " ++ poi_type_display tags)%string 300
    icon_color icon_name "fa".

(** The closed ring [SW, NW, NE, SE, SW] of a box. *)
Definition bbox_polygon (bbox : BBox) : MapLayer :=
  let '(south, west, north, east) := bbox in
  Polygon [(south, west); (north, west); (north, east); (south, east);
           (south, west)]
    "red" 2 true "red" 0.1.

Definition display_gpx_on_map (data : GPX) (pois : list POI)
    (bboxes_to_display : option (list BBox)) : result FoliumMap :=
  let bboxes_to_display := default [] bboxes_to_display in
  let track_latitudes := latitude <$> gpx_points data in
  let track_longitudes := longitude <$> gpx_points data in
  center_lat <- py_mean track_latitudes ;;
  center_lon <- py_mean track_longitudes ;;
  let polylines :=
    flat_map (fun track =>
      (fun segment =>
         PolyLine ((fun point => (latitude point, longitude point))
                     <$> points segment) "blue" 2.5 1) <$> segments track)
      (tracks data) in
  let polygons := bbox_polygon <$> bboxes_to_display in
  let markers := poi_marker <$> pois in
  Ok (mkMap (center_lat, center_lon) 12 (polylines ++ polygons ++ markers)).

(** ** Vocabulary of the statements *)

(** The margin of [get_bounds] and the radius of [filter_pois_near_track]. *)
Definition angular_margin (max_distance_m : R) : R :=
  (max_distance_m * (1 / 111320) * 1.5)%R.

(** [m] is the least, resp. greatest, value of [f] over the points [l]. *)
Definition is_min_of (f : TrackPoint -> R) (l : list TrackPoint) (m : R) : Prop :=
  (exists p, p ∈ l /\ f p = m) /\ forall p, p ∈ l -> (m <= f p)%R.

Definition is_max_of (f : TrackPoint -> R) (l : list TrackPoint) (m : R) : Prop :=
  (exists p, p ∈ l /\ f p = m) /\ forall p, p ∈ l -> (f p <= m)%R.

(** The list [track_points_coords] built by [process_gpx_and_pois]. *)
Definition track_coords (gpx : GPX) : list Coord :=
  (fun pt => (latitude pt, longitude pt)) <$> gpx_points gpx.

(** The point [c] lies in the closed rectangle [bbox]. *)
Definition in_bbox (c : Coord) (bbox : BBox) : Prop :=
  let '(south, west, north, east) := bbox in
  ((south <= c.1 /\ c.1 <= north) /\ (west <= c.2 /\ c.2 <= east))%R.

(** The cell of row [i] and column [j] of the grid of [_subdivide_bbox]. *)
Definition grid_cell (bbox : BBox) (lat_divisions lon_divisions i j : Z) : BBox :=
  let '(south, west, north, east) := bbox in
  let lat_step := ((north - south) / IZR lat_divisions)%R in
  let lon_step := ((east - west) / IZR lon_divisions)%R in
  ((south + IZR i * lat_step)%R, (west + IZR j * lon_step)%R,
   (south + IZR (i + 1) * lat_step)%R, (west + IZR (j + 1) * lon_step)%R).

(** A number of subdivision levels after which a region whose area is
    [ratio] times the threshold has come under it: [2 ^ depth_bound ratio]
    exceeds [ratio], and a level divides the area by 4 at least. *)
Definition depth_bound (ratio : R) : nat := Z.to_nat (Z.log2_up (up ratio)).

(** The state of the loop of [deduplicate_pois_by_id] after the records
    [pois]. *)
Definition dedup_loop (pois : list POI) : dedup_state :=
  fold_left dedup_step pois (∅, [], []).

(** What a record adds to the output when it comes after the records
    [earlier]: itself when it has an identifier that none of them has. *)
Definition kept_of (earlier : list POI) (poi : POI) : list POI :=
  match poi_id poi with
  | Some k => if decide (Some k ∈ poi_id <$> earlier) then [] else [poi]
  | None => []
  end.

(** What a record adds to the warnings: itself when it has no identifier. *)
Definition warned_of (poi : POI) : list POI :=
  match poi_id poi with
  | Some _ => []
  | None => [poi]
  end.

(** The radius query around [poi], with the radius
    [max_distance_m * (1/111320) * 1.5] degrees, returns a track point whose
    haversine distance to [poi] is under [max_distance_m]. *)
Definition near_track `{GI : GeoIndex} (track_points_coords : list Coord)
    (kd : kdtree) (max_distance_m : R) (poi : POI) : Prop :=
  exists idx track_point_lat track_point_lon,
    idx ∈ query_ball_point kd (poi_lat poi, poi_lon poi)
            (angular_margin max_distance_m) /\
    track_points_coords !! idx = Some (track_point_lat, track_point_lon) /\
    (haversine (poi_lat poi) (poi_lon poi) track_point_lat track_point_lon
     < max_distance_m)%R.

(** A POI type of the catalogue. *)
Definition known_poi_type (poi_type : string) : Prop :=
  poi_type ∈ AMENITIES.*1.

(** The parameters the specification calls valid. *)
Definition valid_parameters (poi_types : list string)
    (max_distance_m max_bbox_area_sq_deg : R) (lat_divisions lon_divisions : Z)
  : Prop :=
  Forall known_poi_type poi_types /\
  (0 < max_distance_m)%R /\ (0 < max_bbox_area_sq_deg)%R /\
  (2 <= lat_divisions)%Z /\ (2 <= lon_divisions)%Z.

(** The run raises and has sent nothing. *)
Definition fails_before_io {A} (run : IO A) : Prop :=
  forall sent, exists e, run sent = (Raise e, sent).

(** ** A run on a track of one point *)

Definition sample_gpx : GPX := mkGPX [mkTrack [mkSegment [mkPoint 0 0]]].

Definition sample_poi (id : option Z) : POI := mkPOI id 0 0 [].

(** An answer with a repeated identifier and a record without one. *)
Definition sample_post (request : Request) : result (list POI) :=
  Ok [sample_poi (Some 1%Z); sample_poi (Some 2%Z); sample_poi (Some 1%Z);
      sample_poi None].

Definition sample_bounds : BBox :=
  ((0 - 100 * (1 / 111320) * 1.5)%R, (0 - 100 * (1 / 111320) * 1.5)%R,
   (0 + 100 * (1 / 111320) * 1.5)%R, (0 + 100 * (1 / 111320) * 1.5)%R).

Definition sample_request : Request :=
  mkRequest sample_bounds ["[amenity=drinking_water]"%string].

(** Every ['&'] of the text is followed by an entity tail. *)
Fixpoint escaped (text : string) : bool :=
  match text with
  | EmptyString => true
  | String c rest =>
      (if Ascii.eqb c "&"%char then entity_follows rest else true)
      && escaped rest
  end.

(** The text has no ['&']. *)
Fixpoint amp_free (text : string) : bool :=
  match text with
  | EmptyString => true
  | String c rest => negb (Ascii.eqb c "&"%char) && amp_free rest
  end.

(** The rectangle of the pruning test: [bbox] grown on each side by 5% of
    its height and width. *)
Definition dilated (bbox : BBox) : BBox :=
  let '(south, west, north, east) := bbox in
  ((south - (north - south) * 0.05)%R, (west - (east - west) * 0.05)%R,
   (north + (north - south) * 0.05)%R, (east + (east - west) * 0.05)%R).

(** [sum(xs)] over reals. *)
Definition Rsum (xs : list R) : R := fold_right Rplus 0%R xs.

(** [cell] is a rectangle with south <= north and west <= east that lies
    in [root]. *)
Definition bbox_within (cell root : BBox) : Prop :=
  let '(south, west, north, east) := cell in
  let '(rsouth, rwest, rnorth, reast) := root in
  ((rsouth <= south /\ south <= north /\ north <= rnorth) /\
   (rwest <= west /\ west <= east /\ east <= reast))%R.

(** The quantity [a] of [haversine], whose square root is taken. *)
Definition haversine_a (lat1 lon1 lat2 lon2 : R) : R :=
  (sin (radians (lat2 - lat1) / 2) ^ 2
   + cos (radians lat1) * cos (radians lat2)
     * sin (radians (lon2 - lon1) / 2) ^ 2)%R.

(** * Properties *)

(** ** Results *)

Lemma rbind_Ok {A B} (r : result A) (k : A -> result B) (b : B) :
  rbind r k = Ok b <-> exists a, r = Ok a /\ k a = Ok b.
Proof.
  destruct r as [a|e]; simpl; split.
  - eauto.
  - intros (a' & [= <-] & Hk). exact Hk.
  - discriminate.
  - intros (a' & Ha & _). discriminate.
Qed.

(** ** [get_bounds] *)

Section Bounds.
Local Open Scope R_scope.

Lemma is_min_of_singleton f p : is_min_of f [p] (f p).
Proof.
  split.
  - exists p. split; [apply list_elem_of_singleton|]; reflexivity.
  - intros q Hq. apply list_elem_of_singleton in Hq. subst q. lra.
Qed.

Lemma is_max_of_singleton f p : is_max_of f [p] (f p).
Proof.
  split.
  - exists p. split; [apply list_elem_of_singleton|]; reflexivity.
  - intros q Hq. apply list_elem_of_singleton in Hq. subst q. lra.
Qed.

Lemma is_min_of_snoc f l m p :
  is_min_of f l m -> is_min_of f (l ++ [p]) (Rmin m (f p)).
Proof.
  intros [(q & Hq & Hfq) Hlb]. split.
  - unfold Rmin. destruct (Rle_dec m (f p)).
    + exists q. split; [apply elem_of_app; left|]; assumption.
    + exists p. split; [apply elem_of_app; right; apply list_elem_of_singleton|];
        reflexivity.
  - intros x Hx. apply elem_of_app in Hx as [Hx|Hx].
    + apply Rle_trans with m; [apply Rmin_l | apply Hlb, Hx].
    + apply list_elem_of_singleton in Hx. subst x. apply Rmin_r.
Qed.

Lemma is_max_of_snoc f l m p :
  is_max_of f l m -> is_max_of f (l ++ [p]) (Rmax m (f p)).
Proof.
  intros [(q & Hq & Hfq) Hub]. split.
  - unfold Rmax. destruct (Rle_dec m (f p)).
    + exists p. split; [apply elem_of_app; right; apply list_elem_of_singleton|];
        reflexivity.
    + exists q. split; [apply elem_of_app; left|]; assumption.
  - intros x Hx. apply elem_of_app in Hx as [Hx|Hx].
    + apply Rle_trans with m; [apply Hub, Hx | apply Rmax_l].
    + apply list_elem_of_singleton in Hx. subst x. apply Rmax_r.
Qed.

(** The loop of [get_bounds] leaves the infinite initial values exactly on
    the empty list, and otherwise holds the four extremes. *)
Lemma bounds_loop_extremes (l : list TrackPoint) :
  match fold_left bounds_step l None with
  | None => l = []
  | Some (min_lat, max_lat, min_lon, max_lon) =>
      l <> [] /\
      is_min_of latitude l min_lat /\ is_max_of latitude l max_lat /\
      is_min_of longitude l min_lon /\ is_max_of longitude l max_lon
  end.
Proof.
  induction l as [|p l IH] using rev_ind; [reflexivity|].
  rewrite fold_left_app. simpl.
  destruct (fold_left bounds_step l None) as [[[[a b] c] d]|]; simpl.
  - destruct IH as (_ & Ha & Hb & Hc & Hd).
    split; [intros H; apply app_eq_nil in H as [_ H]; discriminate|].
    auto using is_min_of_snoc, is_max_of_snoc.
  - subst l. simpl.
    split; [discriminate|].
    auto using is_min_of_singleton, is_max_of_singleton.
Qed.

Lemma is_min_le_max f l a b : is_min_of f l a -> is_max_of f l b -> a <= b.
Proof.
  intros [(p & Hp & <-) _] [_ Hub]. apply Hub, Hp.
Qed.

(** C5. On a track with at least one point and for a positive
    [max_distance_m], [get_bounds] returns the box whose south and west
    edges are the least latitude and longitude of the points lowered by
    the angular margin [max_distance_m * (1/111320) * 1.5], and whose north
    and east edges are the greatest ones raised by the same margin; in
    that box south < north and west < east. *)
Theorem get_bounds_margin (gpx : GPX) (max_distance_m : R) :
  gpx_points gpx <> [] ->
  0 < max_distance_m ->
  exists min_lat max_lat min_lon max_lon,
    is_min_of latitude (gpx_points gpx) min_lat /\
    is_max_of latitude (gpx_points gpx) max_lat /\
    is_min_of longitude (gpx_points gpx) min_lon /\
    is_max_of longitude (gpx_points gpx) max_lon /\
    get_bounds gpx max_distance_m =
      Some (min_lat - angular_margin max_distance_m,
            min_lon - angular_margin max_distance_m,
            max_lat + angular_margin max_distance_m,
            max_lon + angular_margin max_distance_m) /\
    min_lat - angular_margin max_distance_m
      < max_lat + angular_margin max_distance_m /\
    min_lon - angular_margin max_distance_m
      < max_lon + angular_margin max_distance_m.
Proof.
  intros Hne Hpos. unfold get_bounds.
  pose proof (bounds_loop_extremes (gpx_points gpx)) as H.
  destruct (fold_left bounds_step (gpx_points gpx) None)
    as [[[[a b] c] d]|]; [|contradiction].
  destruct H as (_ & Ha & Hb & Hc & Hd).
  exists a, b, c, d. repeat split; try apply Ha; try apply Hb;
    try apply Hc; try apply Hd.
  - pose proof (is_min_le_max _ _ _ _ Ha Hb).
    unfold angular_margin. lra.
  - pose proof (is_min_le_max _ _ _ _ Hc Hd).
    unfold angular_margin. lra.
Qed.
End Bounds.

(** ** The linear scan is a spatial index *)

Lemma scan_ball_spec (pts : list Coord) (c : Coord) (r : R) (k i : nat) :
  i ∈ scan_ball pts c r k <->
  exists p, k <= i /\ pts !! (i - k) = Some p /\ (euclid p c <= r)%R.
Proof.
  revert k. induction pts as [|q pts IH]; intros k; simpl.
  - split; [intros H; inversion H | intros (p & _ & H & _); discriminate].
  - assert (Htail : i ∈ scan_ball pts c r (S k) <->
              exists p, k <= i /\ (q :: pts) !! (i - k) = Some p /\
                        (euclid p c <= r)%R /\ i <> k).
    { rewrite IH. split.
      - intros (p & Hle & Hp & Hd). exists p.
        replace (i - k) with (S (i - S k)) by lia. simpl.
        repeat split; [lia | assumption | assumption | lia].
      - intros (p & Hle & Hp & Hd & Hne). exists p.
        replace (i - k) with (S (i - S k)) in Hp by lia. simpl in Hp.
        repeat split; [lia | assumption | assumption]. }
    destruct (decide (euclid q c <= r)%R) as [Hq|Hq].
    + rewrite elem_of_cons, Htail. split.
      * intros [->|(p & ? & ? & ? & _)]; [|eauto].
        exists q. rewrite Nat.sub_diag. auto.
      * intros (p & Hle & Hp & Hd).
        destruct (decide (i = k)) as [->|Hne]; [left; reflexivity|].
        right. eauto 6.
    + rewrite Htail. split.
      * intros (p & ? & ? & ? & _). eauto.
      * intros (p & Hle & Hp & Hd). exists p. repeat split; try assumption.
        intros ->. rewrite Nat.sub_diag in Hp. simpl in Hp.
        injection Hp as ->. contradiction.
Qed.

Lemma scan_ball_from_0 (pts : list Coord) (c : Coord) (r : R) (i : nat) :
  i ∈ scan_ball pts c r 0 <->
  exists p, pts !! i = Some p /\ (euclid p c <= r)%R.
Proof.
  rewrite scan_ball_spec, Nat.sub_0_r.
  split; intros (p & H); exists p; [tauto | split; [lia | tauto]].
Qed.

#[export] Instance ScanIndex : GeoIndex := {|
  kdtree := list Coord;
  KDTree := fun pts => pts;
  query_ball_point := fun pts c r => scan_ball pts c r 0;
  query_ball_point_spec := scan_ball_from_0
|}.

(** ** The pruning test *)

Section PruningTest.
Context `{GI : GeoIndex}.
Local Open Scope R_scope.

(** The loop of the pruning test over indices that are all in range: it
    does not raise, and answers [true] exactly when one of the indexed
    points lies in the dilated rectangle. *)
Lemma any_in_dilated_spec (coords : list Coord) (ds dn dw de : R)
    (idxs : list nat) :
  (forall i, i ∈ idxs -> is_Some (coords !! i)) ->
  exists b, any_in_dilated coords ds dn dw de idxs = Ok b /\
    (b = true <->
     exists i lat lon, i ∈ idxs /\ coords !! i = Some (lat, lon) /\
       (ds <= lat /\ lat <= dn) /\ (dw <= lon /\ lon <= de)).
Proof.
  induction idxs as [|i idxs IH]; intros Hvalid; cbn [any_in_dilated].
  - exists false. split; [reflexivity|]. split; [discriminate|].
    intros (i & ? & ? & Hi & _). inversion Hi.
  - destruct (Hvalid i (list_elem_of_here i idxs)) as [[lat lon] Hi]. rewrite Hi.
    destruct (decide ((ds <= lat /\ lat <= dn) /\ (dw <= lon /\ lon <= de)))
      as [Hin|Hout].
    + exists true. split; [reflexivity|]. split; [|reflexivity].
      intros _. exists i, lat, lon. split; [left|]. auto.
    + destruct IH as (b & Hb & Hiff).
      { intros j Hj. apply Hvalid. right. exact Hj. }
      exists b. split; [exact Hb|]. rewrite Hiff. split.
      * intros (j & la & lo & Hj & Hrest). exists j, la, lo.
        split; [right; exact Hj | exact Hrest].
      * intros (j & la & lo & Hj & Hcj & Hrect).
        apply elem_of_cons in Hj as [->|Hj].
        -- rewrite Hi in Hcj. injection Hcj as <- <-. contradiction.
        -- exists j, la, lo. auto.
Qed.

(** Half the diagonal of a rectangle bounds the distance from its centre
    to any of its points. *)
Lemma euclid_centre_le (ds dn dw de lat lon : R) :
  ds <= lat <= dn -> dw <= lon <= de ->
  euclid (lat, lon) ((ds + dn) / 2, (dw + de) / 2)
    <= sqrt ((dn - ds) ^ 2 + (de - dw) ^ 2) / 2.
Proof.
  intros Hlat Hlon. unfold euclid. simpl fst. simpl snd.
  set (D := (dn - ds) ^ 2 + (de - dw) ^ 2).
  assert (HD : 0 <= D) by (unfold D; nra).
  assert (Hhalf : sqrt (D / 4) = sqrt D / 2).
  { replace (D / 4) with ((sqrt D / 2) * (sqrt D / 2)).
    - apply sqrt_square. pose proof (sqrt_pos D). lra.
    - pose proof (sqrt_sqrt D HD). nra. }
  rewrite <- Hhalf. apply sqrt_le_1_alt. unfold D. nra.
Qed.

(** With the index built over the very list of coordinates the test
    neither raises nor misses. *)
Lemma bbox_contains_total (bbox : BBox) (pts : list Coord) :
  exists b, _bbox_contains_gpx_points bbox (KDTree pts) pts = Ok b.
Proof.
  destruct bbox as [[[south west] north] east].
  unfold _bbox_contains_gpx_points.
  edestruct any_in_dilated_spec as (b & Hb & _); [|exists b; exact Hb].
  intros i Hi. apply query_ball_point_spec in Hi as (p & Hp & _).
  rewrite Hp. eauto.
Qed.

(** A region with a track point in it passes the pruning test. *)
Lemma bbox_contains_point (bbox : BBox) (pts : list Coord) (p : Coord) :
  p ∈ pts -> in_bbox p bbox ->
  _bbox_contains_gpx_points bbox (KDTree pts) pts = Ok true.
Proof.
  destruct bbox as [[[south west] north] east], p as [lat lon].
  intros Hp [[Hs Hn] [Hw He]]. simpl in Hs, Hn, Hw, He.
  unfold _bbox_contains_gpx_points.
  edestruct any_in_dilated_spec as (b & Hb & Hiff); [|rewrite Hb; f_equal].
  { intros i Hi. apply query_ball_point_spec in Hi as (q & Hq & _).
    rewrite Hq. eauto. }
  apply Hiff. clear Hb Hiff b.
  apply list_elem_of_lookup in Hp as [i Hi].
  assert (Hlat : south - (north - south) * 0.05 <= lat
                 <= north + (north - south) * 0.05) by lra.
  assert (Hlon : west - (east - west) * 0.05 <= lon
                 <= east + (east - west) * 0.05) by lra.
  exists i, lat, lon. split; [|split; [exact Hi | lra]].
  apply query_ball_point_spec. exists (lat, lon). split; [exact Hi|].
  eapply Rle_trans; [apply euclid_centre_le; eassumption|].
  match goal with |- ?x / 2 <= _ => assert (0 <= x) by apply sqrt_pos end.
  lra.
Qed.
End PruningTest.

(** ** The grid of [_subdivide_bbox] *)

Lemma elem_of_range (n i : Z) : i ∈ range n <-> (0 <= i < n)%Z.
Proof.
  unfold range. rewrite list_elem_of_fmap. split.
  - intros (k & -> & Hk). apply elem_of_seq in Hk. lia.
  - intros Hi. exists (Z.to_nat i). split; [lia|]. apply elem_of_seq. lia.
Qed.

Section Grid.
Local Open Scope R_scope.

Lemma subdivide_bbox_cells (bbox : BBox) (lat_divisions lon_divisions : Z) :
  lat_divisions <> 0%Z -> lon_divisions <> 0%Z ->
  exists subs, _subdivide_bbox bbox lat_divisions lon_divisions = Ok subs /\
    forall sub, sub ∈ subs <->
      exists i j, (0 <= i < lat_divisions)%Z /\ (0 <= j < lon_divisions)%Z /\
                  sub = grid_cell bbox lat_divisions lon_divisions i j.
Proof.
  intros Hlat Hlon. destruct bbox as [[[south west] north] east].
  unfold _subdivide_bbox.
  destruct (decide (lat_divisions = 0%Z)) as [|_]; [contradiction|].
  destruct (decide (lon_divisions = 0%Z)) as [|_]; [contradiction|].
  eexists. split; [reflexivity|]. intros sub.
  rewrite list_elem_of_In, in_flat_map. split.
  - intros (i & Hi & Hsub). apply list_elem_of_In in Hi, Hsub.
    apply list_elem_of_fmap in Hsub as (j & -> & Hj).
    apply elem_of_range in Hi, Hj. exists i, j. auto.
  - intros (i & j & Hi & Hj & ->). exists i.
    rewrite <- !list_elem_of_In. split; [apply elem_of_range, Hi|].
    apply list_elem_of_fmap. exists j.
    split; [reflexivity | apply elem_of_range, Hj].
Qed.

(** A level of subdivision divides the area by
    [lat_divisions * lon_divisions]. *)
Lemma grid_cell_area (bbox : BBox) (lat_divisions lon_divisions i j : Z) :
  lat_divisions <> 0%Z -> lon_divisions <> 0%Z ->
  bbox_area (grid_cell bbox lat_divisions lon_divisions i j)
  = bbox_area bbox / (IZR lat_divisions * IZR lon_divisions).
Proof.
  intros Hlat Hlon. destruct bbox as [[[south west] north] east].
  unfold grid_cell, bbox_area. rewrite !plus_IZR.
  apply (not_0_IZR lat_divisions) in Hlat.
  apply (not_0_IZR lon_divisions) in Hlon.
  field. auto.
Qed.

(** A point of a segment cut in [n] equal steps lies in one of them. *)
Lemma step_cover (a step x : R) (n : nat) :
  a <= x <= a + INR (S n) * step ->
  exists i : nat, (i <= n)%nat /\
    a + INR i * step <= x <= a + INR (S i) * step.
Proof.
  induction n as [|n IH]; intros Hx.
  - exists 0%nat. simpl in *. split; [lia | lra].
  - destruct (Rle_dec x (a + INR (S n) * step)) as [Hle|Hgt].
    + destruct IH as (i & Hi & Hxi); [lra|]. exists i. split; [lia | exact Hxi].
    + exists (S n). split; [lia | lra].
Qed.

Lemma step_cover_Z (a b x : R) (n : Z) :
  (1 <= n)%Z -> a <= x <= b ->
  exists i : Z, (0 <= i < n)%Z /\
    a + IZR i * ((b - a) / IZR n) <= x <= a + IZR (i + 1) * ((b - a) / IZR n).
Proof.
  intros Hn Hx.
  destruct (step_cover a ((b - a) / IZR n) x (Z.to_nat n - 1)) as (i & Hi & Hxi).
  - replace (S (Z.to_nat n - 1)) with (Z.to_nat n) by lia.
    rewrite INR_IZR_INZ, Z2Nat.id by lia.
    replace (a + IZR n * ((b - a) / IZR n)) with b; [exact Hx|].
    field. apply not_0_IZR. lia.
  - exists (Z.of_nat i). split; [lia|].
    rewrite !INR_IZR_INZ in Hxi.
    replace (Z.of_nat i + 1)%Z with (Z.of_nat (S i)) by lia. exact Hxi.
Qed.

(** The grid covers its parent region... *)
Lemma grid_covers (bbox : BBox) (lat_divisions lon_divisions : Z) (p : Coord) :
  (1 <= lat_divisions)%Z -> (1 <= lon_divisions)%Z ->
  in_bbox p bbox ->
  exists i j, (0 <= i < lat_divisions)%Z /\ (0 <= j < lon_divisions)%Z /\
    in_bbox p (grid_cell bbox lat_divisions lon_divisions i j).
Proof.
  intros Hlat Hlon. destruct bbox as [[[south west] north] east].
  intros [Hplat Hplon].
  destruct (step_cover_Z south north p.1 lat_divisions Hlat Hplat)
    as (i & Hi & Hxi).
  destruct (step_cover_Z west east p.2 lon_divisions Hlon Hplon)
    as (j & Hj & Hxj).
  exists i, j. unfold grid_cell, in_bbox. auto.
Qed.

(** ... and stays inside it. *)
Lemma grid_cell_inside (bbox : BBox) (lat_divisions lon_divisions i j : Z)
    (p : Coord) :
  (0 <= i < lat_divisions)%Z -> (0 <= j < lon_divisions)%Z ->
  (bbox.1.1.1 <= bbox.1.2) -> (bbox.1.1.2 <= bbox.2) ->
  in_bbox p (grid_cell bbox lat_divisions lon_divisions i j) ->
  in_bbox p bbox.
Proof.
  destruct bbox as [[[south west] north] east]. simpl.
  intros Hi Hj Hsn Hwe. unfold grid_cell, in_bbox.
  assert (Hn : 0 < IZR lat_divisions) by (apply IZR_lt; lia).
  assert (Hm : 0 < IZR lon_divisions) by (apply IZR_lt; lia).
  assert (Hi0 : 0 <= IZR i) by (apply IZR_le; lia).
  assert (Hi1 : IZR (i + 1) <= IZR lat_divisions) by (apply IZR_le; lia).
  assert (Hj0 : 0 <= IZR j) by (apply IZR_le; lia).
  assert (Hj1 : IZR (j + 1) <= IZR lon_divisions) by (apply IZR_le; lia).
  set (ls := (north - south) / IZR lat_divisions).
  set (lo := (east - west) / IZR lon_divisions).
  assert (Hls : 0 <= ls).
  { apply Rmult_le_pos; [lra | left; apply Rinv_0_lt_compat, Hn]. }
  assert (Hlo : 0 <= lo).
  { apply Rmult_le_pos; [lra | left; apply Rinv_0_lt_compat, Hm]. }
  assert (Hlsn : IZR lat_divisions * ls = north - south)
    by (unfold ls; field; lra).
  assert (Hlom : IZR lon_divisions * lo = east - west)
    by (unfold lo; field; lra).
  intros [[H1 H2] [H3 H4]]. repeat split; nra.
Qed.
End Grid.

(** ** The recursion of [get_relevant_bboxes] *)

Lemma extend_each_Ok {A B} (f : A -> result (list B)) (xs : list A)
    (acc r : list B) :
  extend_each f xs acc = Ok r <->
  exists rs, Forall2 (fun x rx => f x = Ok rx) xs rs /\ r = acc ++ concat rs.
Proof.
  revert acc. induction xs as [|x xs IH]; intros acc; simpl.
  - split.
    + intros [= <-]. exists []. split; [constructor|].
      simpl. rewrite app_nil_r. reflexivity.
    + intros (rs & Hrs & ->). inversion Hrs. simpl.
      rewrite app_nil_r. reflexivity.
  - rewrite rbind_Ok. split.
    + intros (rx & Hx & Hrest). apply IH in Hrest as (rs & Hrs & ->).
      exists (rx :: rs). split; [constructor; assumption|].
      simpl. rewrite app_assoc. reflexivity.
    + intros (rs & Hrs & ->). inversion Hrs as [|? rx ? rs' Hx Hrs']; subst.
      exists rx. split; [exact Hx|]. apply IH. exists rs'.
      split; [exact Hrs'|]. simpl. rewrite app_assoc. reflexivity.
Qed.

Lemma extend_each_total {A B} (f : A -> result (list B)) (xs : list A)
    (acc : list B) :
  (forall x, x ∈ xs -> exists rx, f x = Ok rx) ->
  exists r, extend_each f xs acc = Ok r.
Proof.
  revert acc. induction xs as [|x xs IH]; intros acc Hf; simpl.
  - eauto.
  - destruct (Hf x) as [rx Hx]; [left|]. rewrite Hx. simpl.
    apply IH. intros y Hy. apply Hf. right. exact Hy.
Qed.

Section PlannerFacts.
Context `{GI : GeoIndex}.
Local Open Scope R_scope.

(** Enough fuel for [d] levels when the area is at most [4 ^ d] times the
    threshold. *)
Lemma get_relevant_bboxes_levels (pts : list Coord) (max_area : R)
    (lat_divisions lon_divisions : Z) (d : nat) :
  0 < max_area -> (2 <= lat_divisions)%Z -> (2 <= lon_divisions)%Z ->
  forall (fuel : nat) (bbox : BBox),
    bbox_area bbox <= max_area * 4 ^ d -> (d < fuel)%nat ->
    exists cells,
      get_relevant_bboxes fuel bbox (KDTree pts) pts max_area
        lat_divisions lon_divisions = Ok cells.
Proof.
  intros Hmax Hlat Hlon.
  induction d as [|d IH]; intros fuel bbox Harea Hfuel;
    (destruct fuel as [|fuel]; [lia|]); cbn [get_relevant_bboxes];
    destruct (bbox_contains_total bbox pts) as [b ->]; cbn [rbind];
    (destruct b; cbn [negb]; [|eauto]);
    (destruct (decide (bbox_area bbox <= max_area)) as [Hstop|Hgo]; [eauto|]).
  - exfalso. simpl in Harea. lra.
  - destruct (subdivide_bbox_cells bbox lat_divisions lon_divisions)
      as (subs & -> & Hsubs); [lia | lia |]. cbn [rbind].
    apply extend_each_total. intros sub Hsub.
    apply Hsubs in Hsub as (i & j & _ & _ & ->).
    apply IH; [|lia]. rewrite grid_cell_area by lia.
    assert (H2 : 2 <= IZR lat_divisions) by (apply IZR_le; lia).
    assert (H3 : 2 <= IZR lon_divisions) by (apply IZR_le; lia).
    assert (H4 : 4 <= IZR lat_divisions * IZR lon_divisions) by nra.
    simpl in Harea. assert (Hpow : 0 < 4 ^ d) by (apply pow_lt; lra).
    apply Rle_trans with (bbox_area bbox / 4).
    + unfold Rdiv. apply Rmult_le_compat_l; [lra|].
      apply Rinv_le_contravar; lra.
    + lra.
Qed.

Lemma depth_bound_spec (ratio : R) : ratio <= 4 ^ depth_bound ratio.
Proof.
  unfold depth_bound. set (a := up ratio).
  assert (Ha : ratio < IZR a) by apply archimed.
  assert (Hlog : (a <= 2 ^ Z.log2_up a)%Z).
  { destruct (Z_lt_le_dec 1 a) as [H1|H1].
    - apply Z.log2_up_spec, H1.
    - rewrite Z.log2_up_eqn0 by lia. simpl. lia. }
  assert (H0 : (0 <= Z.log2_up a)%Z) by apply Z.log2_up_nonneg.
  apply IZR_le in Hlog.
  rewrite <- (Z2Nat.id (Z.log2_up a)) in Hlog by exact H0.
  rewrite <- pow_IZR in Hlog.
  apply Rle_trans with (2 ^ Z.to_nat (Z.log2_up a)); [lra|].
  apply pow_incr. lra.
Qed.

Lemma get_relevant_bboxes_enough_fuel (pts : list Coord) (bbox : BBox)
    (max_area : R) (lat_divisions lon_divisions : Z) (fuel : nat) :
  0 < max_area -> (2 <= lat_divisions)%Z -> (2 <= lon_divisions)%Z ->
  (depth_bound (bbox_area bbox / max_area) < fuel)%nat ->
  exists cells,
    get_relevant_bboxes fuel bbox (KDTree pts) pts max_area
      lat_divisions lon_divisions = Ok cells.
Proof.
  intros Hmax Hlat Hlon Hfuel.
  eapply get_relevant_bboxes_levels; try eassumption.
  pose proof (depth_bound_spec (bbox_area bbox / max_area)) as H.
  apply (Rmult_le_compat_l max_area) in H; [|lra].
  replace (max_area * (bbox_area bbox / max_area)) with (bbox_area bbox) in H
    by (field; lra).
  exact H.
Qed.

(** Whatever the index answers, a returned cell passed the area test. *)
Lemma get_relevant_bboxes_area (fuel : nat) :
  forall (bbox : BBox) (kd : kdtree) (coords : list Coord) (max_area : R)
    (lat_divisions lon_divisions : Z) (cells : list BBox),
    get_relevant_bboxes fuel bbox kd coords max_area
      lat_divisions lon_divisions = Ok cells ->
    Forall (fun cell => bbox_area cell <= max_area) cells.
Proof.
  induction fuel as [|fuel IH]; intros bbox kd coords max_area lat lon cells;
    cbn [get_relevant_bboxes]; [discriminate|].
  rewrite rbind_Ok. intros (b & _ & H).
  destruct (negb b); [injection H as <-; constructor|].
  destruct (decide (bbox_area bbox <= max_area)) as [Hstop|Hgo].
  - injection H as <-. constructor; [exact Hstop | constructor].
  - apply rbind_Ok in H as (subs & _ & H).
    apply extend_each_Ok in H as (rs & Hrs & ->). simpl.
    apply Forall_concat. induction Hrs as [|sub r subs rs Hr _ IHrs];
      constructor; eauto.
Qed.

(** A track point of the region is in a returned cell. *)
Lemma get_relevant_bboxes_cover (pts : list Coord) (max_area : R)
    (lat_divisions lon_divisions : Z) (p : Coord) :
  (1 <= lat_divisions)%Z -> (1 <= lon_divisions)%Z -> p ∈ pts ->
  forall (fuel : nat) (bbox : BBox) (cells : list BBox),
    get_relevant_bboxes fuel bbox (KDTree pts) pts max_area
      lat_divisions lon_divisions = Ok cells ->
    in_bbox p bbox ->
    exists cell, cell ∈ cells /\ in_bbox p cell.
Proof.
  intros Hlat Hlon Hp.
  induction fuel as [|fuel IH]; intros bbox cells;
    cbn [get_relevant_bboxes]; [discriminate|].
  intros H Hin. rewrite (bbox_contains_point bbox pts p Hp Hin) in H.
  cbn [rbind negb] in H.
  destruct (decide (bbox_area bbox <= max_area)) as [Hstop|Hgo].
  - injection H as <-. exists bbox. split; [left | exact Hin].
  - destruct (subdivide_bbox_cells bbox lat_divisions lon_divisions)
      as (subs & Hsubs & Hcells); [lia | lia |].
    rewrite Hsubs in H. cbn [rbind] in H.
    apply extend_each_Ok in H as (rs & Hrs & ->). simpl.
    destruct (grid_covers bbox lat_divisions lon_divisions p Hlat Hlon Hin)
      as (i & j & Hi & Hj & Hpin).
    assert (Hsub : grid_cell bbox lat_divisions lon_divisions i j ∈ subs).
    { apply Hcells. eauto. }
    clear Hsubs Hcells.
    induction Hrs as [|sub r subs rs Hr _ IHrs]; [inversion Hsub|].
    apply elem_of_cons in Hsub as [<-|Hsub].
    + destruct (IH _ _ Hr Hpin) as (cell & Hcell & Hpc).
      exists cell. split; [|exact Hpc]. simpl. apply elem_of_app. auto.
    + destruct (IHrs Hsub) as (cell & Hcell & Hpc).
      exists cell. split; [|exact Hpc]. simpl. apply elem_of_app. auto.
Qed.
End PlannerFacts.

(** ** The planner on the region of [get_bounds] *)

Lemma get_bounds_contains_track (gpx : GPX) (max_distance_m : R) (bounds : BBox)
    (p : Coord) :
  (0 <= max_distance_m)%R ->
  get_bounds gpx max_distance_m = Some bounds ->
  p ∈ track_coords gpx -> in_bbox p bounds.
Proof.
  intros Hd Hb Hp. unfold get_bounds in Hb.
  pose proof (bounds_loop_extremes (gpx_points gpx)) as H.
  destruct (fold_left bounds_step (gpx_points gpx) None)
    as [[[[a b] c] d]|]; [|discriminate].
  destruct H as (_ & [_ Ha] & [_ Hb'] & [_ Hc] & [_ Hd']).
  injection Hb as <-.
  apply list_elem_of_fmap in Hp as (pt & -> & Hpt).
  specialize (Ha pt Hpt). specialize (Hb' pt Hpt).
  specialize (Hc pt Hpt). specialize (Hd' pt Hpt).
  unfold in_bbox. simpl. lra.
Qed.

Section PlannerClaims.
Context `{GI : GeoIndex}.
Local Open Scope R_scope.

(** C2. For a root region that contains all the track points, a positive
    [max_bbox_area_sq_deg] and divisions of at least 2,
    [get_relevant_bboxes] returns (the fuel [depth_bound] asks for is
    enough) and every track point lies in one of the returned cells.  The
    reasons are stated with it: a region with a track point in it passes
    the pruning test, [_subdivide_bbox] returns a grid that covers its
    parent and stays inside it, and the region of [get_bounds] contains
    every track point. *)
Theorem planner_covers_track (pts : list Coord) (bbox : BBox) (max_area : R)
    (lat_divisions lon_divisions : Z) :
  0 < max_area -> (2 <= lat_divisions)%Z -> (2 <= lon_divisions)%Z ->
  (forall p, p ∈ pts -> in_bbox p bbox) ->
  (exists cells,
     get_relevant_bboxes (S (depth_bound (bbox_area bbox / max_area))) bbox
       (KDTree pts) pts max_area lat_divisions lon_divisions = Ok cells) /\
  (forall fuel cells,
     get_relevant_bboxes fuel bbox (KDTree pts) pts max_area
       lat_divisions lon_divisions = Ok cells ->
     forall p, p ∈ pts -> exists cell, cell ∈ cells /\ in_bbox p cell) /\
  (forall region p, p ∈ pts -> in_bbox p region ->
     _bbox_contains_gpx_points region (KDTree pts) pts = Ok true) /\
  (forall region, exists subs,
     _subdivide_bbox region lat_divisions lon_divisions = Ok subs /\
     (forall p, in_bbox p region -> exists sub, sub ∈ subs /\ in_bbox p sub) /\
     (region.1.1.1 <= region.1.2 -> region.1.1.2 <= region.2 ->
      forall p sub, sub ∈ subs -> in_bbox p sub -> in_bbox p region)) /\
  (forall gpx max_distance_m bounds,
     0 < max_distance_m -> track_coords gpx = pts ->
     get_bounds gpx max_distance_m = Some bounds ->
     forall p, p ∈ pts -> in_bbox p bounds).
Proof.
  intros Hmax Hlat Hlon Hroot. repeat apply conj.
  - apply get_relevant_bboxes_enough_fuel; try assumption. lia.
  - intros fuel cells Hcells p Hp.
    eapply get_relevant_bboxes_cover; eauto; lia.
  - intros region p. apply bbox_contains_point.
  - intros region.
    destruct (subdivide_bbox_cells region lat_divisions lon_divisions)
      as (subs & Hsubs & Hcells); [lia | lia |].
    exists subs. split; [exact Hsubs|]. split.
    + intros p Hp.
      destruct (grid_covers region lat_divisions lon_divisions p)
        as (i & j & Hi & Hj & Hpin); [lia | lia | exact Hp |].
      eexists. split; [|exact Hpin]. apply Hcells. eauto.
    + intros Hsn Hwe p sub Hsub Hpin.
      apply Hcells in Hsub as (i & j & Hi & Hj & ->).
      exact (grid_cell_inside region lat_divisions lon_divisions i j p
               Hi Hj Hsn Hwe Hpin).
  - intros gpx d bounds Hd <- Hb p Hp.
    eapply get_bounds_contains_track; eauto. lra.
Qed.

(** C3. For every region and track, a positive [max_bbox_area_sq_deg] and
    divisions of at least 2, [get_relevant_bboxes] returns, and every cell
    it returns has an area [(north - south) * (east - west)] of at most
    [max_bbox_area_sq_deg]. *)
Theorem planner_cells_under_cap (pts : list Coord) (bbox : BBox) (max_area : R)
    (lat_divisions lon_divisions : Z) :
  0 < max_area -> (2 <= lat_divisions)%Z -> (2 <= lon_divisions)%Z ->
  (exists cells,
     get_relevant_bboxes (S (depth_bound (bbox_area bbox / max_area))) bbox
       (KDTree pts) pts max_area lat_divisions lon_divisions = Ok cells) /\
  (forall fuel cells,
     get_relevant_bboxes fuel bbox (KDTree pts) pts max_area
       lat_divisions lon_divisions = Ok cells ->
     Forall (fun cell : BBox =>
               (cell.1.2 - cell.1.1.1) * (cell.2 - cell.1.1.2) <= max_area)
            cells).
Proof.
  intros Hmax Hlat Hlon. split.
  - apply get_relevant_bboxes_enough_fuel; try assumption. lia.
  - intros fuel cells Hcells.
    apply get_relevant_bboxes_area in Hcells.
    eapply Forall_impl; [exact Hcells|].
    intros [[[s w] n] e]. simpl. tauto.
Qed.

(** C4. For a region of positive height and width, a positive
    [max_bbox_area_sq_deg] and divisions of at least 2, the recursion of
    [get_relevant_bboxes] ends: a recursion limit above
    [depth_bound (area / max_bbox_area_sq_deg)], a function of the ratio of
    the region's area to the threshold alone, is never reached.  Each level
    divides the area of a cell by [lat_divisions * lon_divisions], and a
    region at or under the threshold is answered without a recursive
    call. *)
Theorem planner_terminates (pts : list Coord) (bbox : BBox) (max_area : R)
    (lat_divisions lon_divisions : Z) :
  bbox.1.1.1 < bbox.1.2 -> bbox.1.1.2 < bbox.2 ->
  0 < max_area -> (2 <= lat_divisions)%Z -> (2 <= lon_divisions)%Z ->
  (forall fuel,
     (depth_bound (bbox_area bbox / max_area) < fuel)%nat ->
     exists cells,
       get_relevant_bboxes fuel bbox (KDTree pts) pts max_area
         lat_divisions lon_divisions = Ok cells) /\
  (forall region, exists subs,
     _subdivide_bbox region lat_divisions lon_divisions = Ok subs /\
     forall sub, sub ∈ subs ->
       bbox_area sub
       = bbox_area region / (IZR lat_divisions * IZR lon_divisions)) /\
  (forall region, bbox_area region <= max_area ->
     exists cells,
       get_relevant_bboxes 1 region (KDTree pts) pts max_area
         lat_divisions lon_divisions = Ok cells).
Proof.
  intros _ _ Hmax Hlat Hlon. repeat apply conj.
  - intros fuel Hfuel. apply get_relevant_bboxes_enough_fuel; assumption.
  - intros region.
    destruct (subdivide_bbox_cells region lat_divisions lon_divisions)
      as (subs & Hsubs & Hcells); [lia | lia |].
    exists subs. split; [exact Hsubs|]. intros sub Hsub.
    apply Hcells in Hsub as (i & j & _ & _ & ->).
    apply grid_cell_area; lia.
  - intros region Hsmall.
    apply (get_relevant_bboxes_levels pts max_area lat_divisions
             lon_divisions 0); try assumption; [|lia].
    simpl. lra.
Qed.
End PlannerClaims.

(** ** [deduplicate_pois_by_id] *)

Lemma deduplicate_loop (pois : list POI) :
  deduplicate_pois_by_id pois = ((dedup_loop pois).1.2, (dedup_loop pois).2).
Proof.
  unfold deduplicate_pois_by_id, dedup_loop.
  destruct (fold_left dedup_step pois (∅, [], [])) as [[seen u] w]. reflexivity.
Qed.

Lemma dedup_loop_snoc (l : list POI) (p : POI) :
  dedup_loop (l ++ [p]) = dedup_step (dedup_loop l) p.
Proof. unfold dedup_loop. rewrite fold_left_app. reflexivity. Qed.

(** [seen_ids] holds the identifiers of the records gone through. *)
Lemma dedup_loop_seen (l : list POI) (k : Z) :
  k ∈ (dedup_loop l).1.1 <-> Some k ∈ poi_id <$> l.
Proof.
  induction l as [|p l IH] using rev_ind.
  - simpl. split; intros H; [|inversion H]. set_solver.
  - rewrite dedup_loop_snoc, fmap_app, elem_of_app. simpl.
    rewrite list_elem_of_singleton, <- IH.
    destruct (dedup_loop l) as [[seen u] w]. simpl.
    destruct (poi_id p) as [i|]; simpl.
    + destruct (decide (i ∉ seen)) as [Hnew|Hold]; simpl.
      * rewrite elem_of_union, elem_of_singleton. split.
        -- intros [->|H]; auto.
        -- intros [H|[= ->]]; auto.
      * apply dec_stable in Hold. split; [auto|].
        intros [H|[= ->]]; assumption.
    + split; [auto|]. intros [H|H]; [assumption | discriminate].
Qed.

Lemma deduplicate_snoc (l : list POI) (p : POI) :
  deduplicate_pois_by_id (l ++ [p])
  = ((deduplicate_pois_by_id l).1 ++ kept_of l p,
     (deduplicate_pois_by_id l).2 ++ warned_of p).
Proof.
  rewrite !deduplicate_loop, dedup_loop_snoc. simpl.
  pose proof (dedup_loop_seen l) as Hseen.
  destruct (dedup_loop l) as [[seen u] w]. simpl in *.
  unfold kept_of, warned_of. destruct (poi_id p) as [k|]; simpl.
  - destruct (decide (k ∉ seen)) as [Hnew|Hold];
      destruct (decide (Some k ∈ poi_id <$> l)) as [Hin|Hout]; simpl.
    + exfalso. apply Hnew, Hseen, Hin.
    + rewrite app_nil_r. reflexivity.
    + rewrite !app_nil_r. reflexivity.
    + exfalso. apply Hold. intros H. apply Hout, Hseen, H.
  - rewrite app_nil_r. reflexivity.
Qed.

Lemma kept_of_sublist (l : list POI) (p : POI) : kept_of l p `sublist_of` [p].
Proof.
  unfold kept_of. destruct (poi_id p); [case_decide|];
    first [apply sublist_nil_l | reflexivity].
Qed.

Lemma deduplicate_sublist (pois : list POI) :
  (deduplicate_pois_by_id pois).1 `sublist_of` pois.
Proof.
  induction pois as [|p l IH] using rev_ind; [reflexivity|].
  rewrite deduplicate_snoc. simpl.
  apply sublist_app; [exact IH | apply kept_of_sublist].
Qed.

(** The identifiers of the output are those of the input. *)
Lemma deduplicate_ids (pois : list POI) (k : Z) :
  Some k ∈ poi_id <$> (deduplicate_pois_by_id pois).1 <->
  Some k ∈ poi_id <$> pois.
Proof.
  induction pois as [|p l IH] using rev_ind; [reflexivity|].
  rewrite deduplicate_snoc. simpl. rewrite !fmap_app, !elem_of_app, IH.
  unfold kept_of. destruct (poi_id p) as [i|] eqn:Hid; simpl.
  - destruct (decide (Some i ∈ poi_id <$> l)) as [Hin|Hout]; simpl.
    + split; [intros [H|H]; [auto | inversion H]|].
      intros [H|H]; [auto|]. apply list_elem_of_singleton in H.
      rewrite Hid in H. injection H as ->. auto.
    + reflexivity.
  - split; (intros [H|H]; [auto|]); [inversion H|].
    apply list_elem_of_singleton in H. rewrite Hid in H. discriminate.
Qed.

Lemma deduplicate_present (pois : list POI) (p : POI) :
  p ∈ (deduplicate_pois_by_id pois).1 -> is_Some (poi_id p).
Proof.
  induction pois as [|q l IH] using rev_ind; [intros H; inversion H|].
  rewrite deduplicate_snoc. simpl. rewrite elem_of_app.
  intros [H|H]; [auto|]. unfold kept_of in H.
  destruct (poi_id q) as [i|] eqn:Hid; [case_decide|]; try (inversion H; fail).
  apply list_elem_of_singleton in H. subst q. rewrite Hid. eauto.
Qed.

Lemma deduplicate_NoDup (pois : list POI) :
  NoDup (poi_id <$> (deduplicate_pois_by_id pois).1).
Proof.
  induction pois as [|p l IH] using rev_ind; [constructor|].
  rewrite deduplicate_snoc. simpl. rewrite fmap_app.
  apply NoDup_app. split; [exact IH|]. unfold kept_of.
  destruct (poi_id p) as [i|] eqn:Hid; [case_decide as Hin|]; simpl.
  - split; [intros x _ H; inversion H | constructor].
  - rewrite Hid. split; [|apply NoDup_singleton].
    intros x Hx Hx'. apply list_elem_of_singleton in Hx'. subst x.
    apply Hin, deduplicate_ids, Hx.
  - split; [intros x _ H; inversion H | constructor].
Qed.

(** The record kept for an identifier is the first one that carries it. *)
Lemma deduplicate_first (l1 l2 : list POI) (p : POI) (k : Z) :
  poi_id p = Some k -> Some k ∉ poi_id <$> l1 ->
  p ∈ (deduplicate_pois_by_id (l1 ++ p :: l2)).1 /\
  forall q, q ∈ (deduplicate_pois_by_id (l1 ++ p :: l2)).1 ->
            poi_id q = Some k -> q = p.
Proof.
  intros Hid Hfresh.
  induction l2 as [|x l2 IH] using rev_ind.
  - rewrite deduplicate_snoc. simpl. unfold kept_of. rewrite Hid.
    destruct (decide (Some k ∈ poi_id <$> l1)) as [|_]; [contradiction|].
    split; [apply elem_of_app; right; left|].
    intros q Hq Hqid. apply elem_of_app in Hq as [Hq|Hq].
    + exfalso. apply Hfresh, deduplicate_ids.
      rewrite <- Hqid. apply list_elem_of_fmap. eauto.
    + apply list_elem_of_singleton in Hq. exact Hq.
  - destruct IH as [Hin Huniq].
    replace (l1 ++ p :: l2 ++ [x]) with ((l1 ++ p :: l2) ++ [x])
      by (rewrite <- app_assoc; reflexivity).
    rewrite deduplicate_snoc. simpl.
    split; [apply elem_of_app; left; exact Hin|].
    intros q Hq Hqid. apply elem_of_app in Hq as [Hq|Hq]; [auto|].
    exfalso. unfold kept_of in Hq.
    destruct (poi_id x) as [i|] eqn:Hx; [|inversion Hq].
    destruct (decide (Some i ∈ poi_id <$> l1 ++ p :: l2)) as [|Hout];
      [inversion Hq|].
    apply list_elem_of_singleton in Hq. subst q.
    apply Hout. rewrite Hx in Hqid. injection Hqid as ->.
    rewrite fmap_app, elem_of_app. right. simpl. rewrite Hid. left.
Qed.

(** C6. [deduplicate_pois_by_id] goes through the records in order: a record
    is appended to the output exactly when it has an identifier that no
    earlier record has, and is logged with a warning exactly when it has no
    identifier (the loop goes on).  So the output is a subsequence of the
    input, in the input's order, its records all have an identifier, no
    identifier occurs twice, every identifier of the input occurs, and the
    record kept for an identifier is the first one of the input that carries
    it. *)
Theorem deduplicate_keeps_first_occurrences (pois : list POI) :
  deduplicate_pois_by_id [] = ([], []) /\
  (forall l p,
     (deduplicate_pois_by_id (l ++ [p])).1
     = (deduplicate_pois_by_id l).1 ++ kept_of l p /\
     (deduplicate_pois_by_id (l ++ [p])).2
     = (deduplicate_pois_by_id l).2 ++ warned_of p) /\
  (deduplicate_pois_by_id pois).1 `sublist_of` pois /\
  (forall p, p ∈ (deduplicate_pois_by_id pois).1 -> exists k, poi_id p = Some k) /\
  NoDup (poi_id <$> (deduplicate_pois_by_id pois).1) /\
  (forall k, Some k ∈ poi_id <$> pois ->
             Some k ∈ poi_id <$> (deduplicate_pois_by_id pois).1) /\
  (forall l1 p l2 k,
     pois = l1 ++ p :: l2 -> poi_id p = Some k -> Some k ∉ poi_id <$> l1 ->
     p ∈ (deduplicate_pois_by_id pois).1 /\
     forall q, q ∈ (deduplicate_pois_by_id pois).1 -> poi_id q = Some k -> q = p) /\
  (deduplicate_pois_by_id pois).2 = filter (fun p => poi_id p = None) pois.
Proof.
  repeat apply conj.
  - reflexivity.
  - intros l p. rewrite deduplicate_snoc. split; reflexivity.
  - apply deduplicate_sublist.
  - intros p Hp. apply deduplicate_present in Hp as [k Hk]. eauto.
  - apply deduplicate_NoDup.
  - intros k. apply deduplicate_ids.
  - intros l1 p l2 k ->. apply deduplicate_first.
  - induction pois as [|p l IH] using rev_ind; [reflexivity|].
    rewrite deduplicate_snoc, filter_app. simpl. rewrite IH. f_equal.
    unfold warned_of. rewrite filter_cons, filter_nil.
    destruct (poi_id p); [rewrite decide_False by discriminate
                         | rewrite decide_True by reflexivity]; reflexivity.
Qed.

(** ** [filter_pois_near_track] *)

Section ProximityFilter.
Context `{GI : GeoIndex}.
Local Open Scope R_scope.

(** The loop over the candidates, all in range: it does not raise, and
    answers [true] exactly when a candidate is closer than
    [max_distance_m]. *)
Lemma near_any_spec (coords : list Coord) (poi_lat poi_lon max_distance_m : R)
    (idxs : list nat) :
  (forall i, i ∈ idxs -> is_Some (coords !! i)) ->
  exists b, near_any coords poi_lat poi_lon max_distance_m idxs = Ok b /\
    (b = true <->
     exists i tlat tlon, i ∈ idxs /\ coords !! i = Some (tlat, tlon) /\
       haversine poi_lat poi_lon tlat tlon < max_distance_m).
Proof.
  induction idxs as [|i idxs IH]; intros Hvalid; cbn [near_any].
  - exists false. split; [reflexivity|]. split; [discriminate|].
    intros (i & ? & ? & Hi & _). inversion Hi.
  - destruct (Hvalid i (list_elem_of_here i idxs)) as [[tlat tlon] Hi].
    rewrite Hi.
    destruct (decide (haversine poi_lat poi_lon tlat tlon < max_distance_m))
      as [Hnear|Hfar].
    + exists true. split; [reflexivity|]. split; [|reflexivity].
      intros _. exists i, tlat, tlon. split; [left|]. auto.
    + destruct IH as (b & Hb & Hiff).
      { intros j Hj. apply Hvalid. right. exact Hj. }
      exists b. split; [exact Hb|]. rewrite Hiff. split.
      * intros (j & la & lo & Hj & Hrest). exists j, la, lo.
        split; [right; exact Hj | exact Hrest].
      * intros (j & la & lo & Hj & Hcj & Hd).
        apply elem_of_cons in Hj as [->|Hj].
        -- rewrite Hi in Hcj. injection Hcj as <- <-. contradiction.
        -- exists j, la, lo. auto.
Qed.

(** One POI against the index built over the track points. *)
Lemma near_any_track (pts : list Coord) (max_distance_m : R) (poi : POI) :
  exists b,
    near_any pts (poi_lat poi) (poi_lon poi) max_distance_m
      (query_ball_point (KDTree pts) (poi_lat poi, poi_lon poi)
         (angular_margin max_distance_m)) = Ok b /\
    (b = true <-> near_track pts (KDTree pts) max_distance_m poi).
Proof.
  apply near_any_spec. intros i Hi.
  apply query_ball_point_spec in Hi as (p & Hp & _). rewrite Hp. eauto.
Qed.

Lemma filter_loop_acc (pts : list Coord) (max_distance_m : R)
    (pois acc : list POI) :
  exists out,
    filter_loop pts (KDTree pts) (angular_margin max_distance_m)
      max_distance_m pois [] = Ok out /\
    filter_loop pts (KDTree pts) (angular_margin max_distance_m)
      max_distance_m pois acc = Ok (acc ++ out).
Proof.
  revert acc. induction pois as [|poi pois IH]; intros acc; cbn [filter_loop].
  - exists []. rewrite app_nil_r. auto.
  - destruct (near_any_track pts max_distance_m poi) as (b & -> & _).
    cbn [rbind]. destruct b.
    + destruct (IH [poi]) as (out & _ & Hout). simpl in Hout.
      exists (poi :: out). split; [exact Hout|].
      destruct (IH (acc ++ [poi])) as (out' & Hout' & ->).
      destruct (IH [poi]) as (out'' & Hout'' & Hout3).
      rewrite Hout' in Hout''. injection Hout'' as <-.
      rewrite Hout3 in Hout. injection Hout as <-.
      rewrite <- app_assoc. reflexivity.
    + destruct (IH []) as (out & Hout & _). exists out.
      split; [exact Hout|]. destruct (IH acc) as (out' & Hout' & ->).
      rewrite Hout' in Hout. injection Hout as ->. reflexivity.
Qed.

(** The filter on a list with one more record in front. *)
Lemma filter_cons_spec (pts : list Coord) (max_distance_m : R) (poi : POI)
    (pois : list POI) :
  exists out,
    filter_pois_near_track pts (KDTree pts) pois max_distance_m = Ok out /\
    (near_track pts (KDTree pts) max_distance_m poi ->
     filter_pois_near_track pts (KDTree pts) (poi :: pois) max_distance_m
     = Ok (poi :: out)) /\
    (~ near_track pts (KDTree pts) max_distance_m poi ->
     filter_pois_near_track pts (KDTree pts) (poi :: pois) max_distance_m
     = Ok out).
Proof.
  unfold filter_pois_near_track. fold (angular_margin max_distance_m).
  cbn [filter_loop].
  destruct (near_any_track pts max_distance_m poi) as (b & -> & Hb).
  cbn [rbind].
  destruct (filter_loop_acc pts max_distance_m pois [poi]) as (out & Hout & Hacc).
  exists out. split; [exact Hout|]. destruct b.
  - split; [intros _; exact Hacc|]. intros Hfar. exfalso. apply Hfar, Hb.
    reflexivity.
  - split; [|intros _; exact Hout]. intros Hnear. apply Hb in Hnear.
    discriminate.
Qed.

Lemma filter_total (pts : list Coord) (max_distance_m : R) (pois : list POI) :
  exists out,
    filter_pois_near_track pts (KDTree pts) pois max_distance_m = Ok out /\
    out `sublist_of` pois /\
    forall poi, poi ∈ out <->
      poi ∈ pois /\ near_track pts (KDTree pts) max_distance_m poi.
Proof.
  induction pois as [|poi pois IH].
  - exists []. split; [reflexivity|]. split; [reflexivity|].
    intros poi. split; [intros H; inversion H | intros [H _]; inversion H].
  - destruct (filter_cons_spec pts max_distance_m poi pois)
      as (out & Hout & Hnear & Hfar).
    destruct IH as (out' & Hout' & Hsub & Hiff).
    rewrite Hout' in Hout. injection Hout as <-.
    assert (Hdec : near_track pts (KDTree pts) max_distance_m poi \/
                   ~ near_track pts (KDTree pts) max_distance_m poi).
    { destruct (near_any_track pts max_distance_m poi) as ([|] & _ & Hb).
      - left. apply Hb. reflexivity.
      - right. intros H. apply Hb in H. discriminate. }
    destruct Hdec as [Hn|Hn].
    + exists (poi :: out'). split; [apply Hnear, Hn|].
      split; [apply sublist_skip, Hsub|]. intros q.
      rewrite !elem_of_cons, Hiff. split.
      * intros [->|[Hq Hqn]]; auto.
      * intros [[->|Hq] Hqn]; auto.
    + exists out'. split; [apply Hfar, Hn|].
      split; [apply sublist_cons, Hsub|]. intros q.
      rewrite elem_of_cons, Hiff. split.
      * intros [Hq Hqn]; auto.
      * intros [[->|Hq] Hqn]; [contradiction | auto].
Qed.

(** C1. Over a track with at least one point and for a positive
    [max_distance_m], [filter_pois_near_track] returns, and keeps a POI
    exactly when the radius query around it, of radius
    [max_distance_m * (1/111320) * 1.5] degrees, returns a track point whose
    [haversine] distance to the POI is strictly under [max_distance_m]: the
    output is a subsequence of the input, a record in front of the input is
    in front of the output when it is near and absent when it is not.  A POI
    all of whose candidates are at distance [max_distance_m] or more, so also
    one at that exact distance from its nearest track point, is left out,
    and so is a POI for which the radius query returns nothing. *)
Theorem filter_keeps_near_pois (pts : list Coord) (pois : list POI)
    (max_distance_m : R) :
  pts <> [] -> 0 < max_distance_m ->
  exists out,
    filter_pois_near_track pts (KDTree pts) pois max_distance_m = Ok out /\
    out `sublist_of` pois /\
    (forall poi, poi ∈ out <->
       poi ∈ pois /\ near_track pts (KDTree pts) max_distance_m poi) /\
    (forall poi rest, exists out_rest,
       filter_pois_near_track pts (KDTree pts) rest max_distance_m
       = Ok out_rest /\
       (near_track pts (KDTree pts) max_distance_m poi ->
        filter_pois_near_track pts (KDTree pts) (poi :: rest) max_distance_m
        = Ok (poi :: out_rest)) /\
       (~ near_track pts (KDTree pts) max_distance_m poi ->
        filter_pois_near_track pts (KDTree pts) (poi :: rest) max_distance_m
        = Ok out_rest)) /\
    (forall poi,
       (forall idx tlat tlon,
          idx ∈ query_ball_point (KDTree pts) (poi_lat poi, poi_lon poi)
                  (max_distance_m * (1 / 111320) * 1.5) ->
          pts !! idx = Some (tlat, tlon) ->
          max_distance_m <= haversine (poi_lat poi) (poi_lon poi) tlat tlon) ->
       poi ∉ out) /\
    (forall poi,
       query_ball_point (KDTree pts) (poi_lat poi, poi_lon poi)
         (max_distance_m * (1 / 111320) * 1.5) = [] ->
       poi ∉ out).
Proof.
  intros _ _.
  destruct (filter_total pts max_distance_m pois) as (out & Hout & Hsub & Hiff).
  exists out. repeat apply conj; try assumption.
  - intros poi rest. apply filter_cons_spec.
  - intros poi Hfar Hin. apply Hiff in Hin as [_ (idx & tlat & tlon & Hq & Hp & Hd)].
    specialize (Hfar idx tlat tlon Hq Hp). lra.
  - intros poi Hnone Hin. apply Hiff in Hin as [_ (idx & tlat & tlon & Hq & _)].
    unfold angular_margin in Hq. rewrite Hnone in Hq. inversion Hq.
Qed.
End ProximityFilter.

(** ** [process_gpx_and_pois] *)

Lemma get_bounds_None (gpx : GPX) (max_distance_m : R) :
  get_bounds gpx max_distance_m = None <-> gpx_points gpx = [].
Proof.
  unfold get_bounds.
  pose proof (bounds_loop_extremes (gpx_points gpx)) as H.
  destruct (fold_left bounds_step (gpx_points gpx) None) as [[[[a b] c] d]|].
  - destruct H as [Hne _]. split; [discriminate | contradiction].
  - split; auto.
Qed.

Lemma track_coords_nil (gpx : GPX) : track_coords gpx = [] <-> gpx_points gpx = [].
Proof. unfold track_coords. destruct (gpx_points gpx); simpl; split; congruence. Qed.

(** The identifiers that survive the two last stages. *)
Lemma filter_deduplicate_ids `{GI : GeoIndex} (pts : list Coord)
    (pois : list POI) (max_distance_m : R) :
  exists out,
    filter_pois_near_track pts (KDTree pts) (deduplicate_pois_by_id pois).1
      max_distance_m = Ok out /\
    out `sublist_of` (deduplicate_pois_by_id pois).1 /\
    NoDup (poi_id <$> out) /\
    (forall p, p ∈ out -> exists k, poi_id p = Some k).
Proof.
  destruct (filter_total pts max_distance_m (deduplicate_pois_by_id pois).1)
    as (out & Hout & Hsub & Hiff).
  exists out. repeat apply conj; try assumption.
  - exact (sublist_NoDup _ _ (deduplicate_NoDup pois)
             (fmap_sublist poi_id _ _ Hsub)).
  - intros p Hp. apply Hiff in Hp as [Hp _].
    apply deduplicate_present in Hp as [k Hk]. eauto.
Qed.

Section OrchestratorFacts.
Context `{GI : GeoIndex}.
Variable post : Request -> result (list POI).
Variable recursion_limit : nat.

(** A track without points: nothing is planned and nothing is sent. *)
Lemma process_empty_track (gpx : GPX) (poi_types : list string)
    (max_distance_m max_area : R) (lat_divisions lon_divisions : Z)
    (show_bboxes : bool) (sent : list Request) :
  gpx_points gpx = [] ->
  process_gpx_and_pois post recursion_limit gpx poi_types max_distance_m
    max_area lat_divisions lon_divisions show_bboxes sent
  = (Ok (gpx, [], Some []), sent).
Proof.
  intros Hempty. unfold process_gpx_and_pois.
  rewrite (proj2 (get_bounds_None gpx max_distance_m) Hempty). reflexivity.
Qed.

(** A run on a track with points, stage by stage. *)
Lemma process_nonempty_track (gpx : GPX) (poi_types : list string)
    (max_distance_m max_area : R) (lat_divisions lon_divisions : Z)
    (show_bboxes : bool) (sent : list Request) (bounds : BBox) :
  gpx_points gpx <> [] ->
  get_bounds gpx max_distance_m = Some bounds ->
  process_gpx_and_pois post recursion_limit gpx poi_types max_distance_m
    max_area lat_divisions lon_divisions show_bboxes sent
  = match get_relevant_bboxes recursion_limit bounds
            (KDTree (track_coords gpx)) (track_coords gpx) max_area
            lat_divisions lon_divisions with
    | Raise e => (Raise e, sent)
    | Ok bboxes =>
        match query_each post bboxes poi_types (KDTree (track_coords gpx)) []
                sent with
        | (Raise e, sent') => (Raise e, sent')
        | (Ok pois, sent') =>
            match filter_pois_near_track (track_coords gpx)
                    (KDTree (track_coords gpx))
                    (deduplicate_pois_by_id pois).1 max_distance_m with
            | Raise e => (Raise e, sent')
            | Ok filtered_pois =>
                (Ok (gpx, filtered_pois,
                     if show_bboxes then Some bboxes else None), sent')
            end
        end
    end.
Proof.
  intros Hne Hb. unfold process_gpx_and_pois. rewrite Hb.
  fold (track_coords gpx).
  destruct (track_coords gpx) as [|c coords] eqn:Hc.
  { apply track_coords_nil in Hc. contradiction. }
  unfold io_bind, io_lift, io_ret.
  destruct (get_relevant_bboxes _ _ _ _ _ _ _) as [bboxes|e]; [|reflexivity].
  destruct (query_each _ _ _ _ _ _) as [[pois|e] sent']; [|reflexivity].
  destruct (filter_pois_near_track _ _ _ _) as [filtered|e]; reflexivity.
Qed.

(** A query whose POI types are not all in [AMENITIES] raises before the
    request is sent. *)
Lemma query_each_KeyError (bbox : BBox) (bboxes : list BBox)
    (poi_types : list string) (kd : kdtree) (pois : list POI)
    (sent : list Request) (e : exception) :
  tag_filters poi_types = Raise e ->
  query_each post (bbox :: bboxes) poi_types kd pois sent = (Raise e, sent).
Proof.
  intros He. cbn [query_each]. unfold io_bind, query_overpass, io_bind, io_lift.
  rewrite He. reflexivity.
Qed.

(** The single query of a plan of one cell. *)
Lemma query_each_single (bbox : BBox) (poi_types parts : list string)
    (kd : kdtree) (sent : list Request) :
  tag_filters poi_types = Ok parts ->
  query_each post [bbox] poi_types kd [] sent
  = (post (mkRequest bbox parts), sent ++ [mkRequest bbox parts]).
Proof.
  intros Hparts. cbn [query_each].
  unfold io_bind, query_overpass, io_bind, io_lift, io_ret.
  rewrite Hparts. destruct (post _); reflexivity.
Qed.
End OrchestratorFacts.

(** A root region under the area threshold is the whole plan, whatever the
    divisions. *)
Lemma small_root_plan `{GI : GeoIndex} (gpx : GPX) (max_distance_m max_area : R)
    (lat_divisions lon_divisions : Z) (fuel : nat) (bounds : BBox) :
  gpx_points gpx <> [] -> (0 <= max_distance_m)%R ->
  get_bounds gpx max_distance_m = Some bounds ->
  (bbox_area bounds <= max_area)%R ->
  get_relevant_bboxes (S fuel) bounds (KDTree (track_coords gpx))
    (track_coords gpx) max_area lat_divisions lon_divisions = Ok [bounds].
Proof.
  intros Hne Hd Hb Hsmall. cbn [get_relevant_bboxes].
  destruct (track_coords gpx) as [|c coords] eqn:Hc.
  { apply track_coords_nil in Hc. contradiction. }
  rewrite (bbox_contains_point bounds (c :: coords) c).
  - cbn [rbind negb]. rewrite decide_True by exact Hsmall. reflexivity.
  - left.
  - apply (get_bounds_contains_track gpx max_distance_m); [assumption..|].
    rewrite Hc. left.
Qed.

(** A root region over the threshold is subdivided, and a zero divisor
    raises there. *)
Lemma large_root_zero_divisions `{GI : GeoIndex} (gpx : GPX)
    (max_distance_m max_area : R) (lat_divisions lon_divisions : Z)
    (fuel : nat) (bounds : BBox) :
  gpx_points gpx <> [] -> (0 <= max_distance_m)%R ->
  get_bounds gpx max_distance_m = Some bounds ->
  (max_area < bbox_area bounds)%R ->
  lat_divisions = 0%Z \/ lon_divisions = 0%Z ->
  get_relevant_bboxes (S fuel) bounds (KDTree (track_coords gpx))
    (track_coords gpx) max_area lat_divisions lon_divisions
  = Raise ZeroDivisionError.
Proof.
  intros Hne Hd Hb Hlarge Hzero. cbn [get_relevant_bboxes].
  destruct (track_coords gpx) as [|c coords] eqn:Hc.
  { apply track_coords_nil in Hc. contradiction. }
  rewrite (bbox_contains_point bounds (c :: coords) c).
  - cbn [rbind negb]. rewrite decide_False by lra.
    destruct bounds as [[[south west] north] east]. unfold _subdivide_bbox.
    destruct (decide (lat_divisions = 0%Z)); [reflexivity|].
    destruct (decide (lon_divisions = 0%Z)); [reflexivity|].
    destruct Hzero; contradiction.
  - left.
  - apply (get_bounds_contains_track gpx max_distance_m); [assumption..|].
    rewrite Hc. left.
Qed.

(** ** The sample run *)

Lemma haversine_same_point (lat lon : R) : haversine lat lon lat lon = 0%R.
Proof.
  unfold haversine, radians.
  replace ((lat - lat) * PI / 180 / 2)%R with 0%R by lra.
  replace ((lon - lon) * PI / 180 / 2)%R with 0%R by lra.
  rewrite sin_0.
  replace (0 ^ 2 + cos (lat * PI / 180) * cos (lat * PI / 180) * 0 ^ 2)%R
    with 0%R by ring.
  rewrite Rminus_0_r, sqrt_0, sqrt_1. unfold atan2.
  rewrite decide_True by lra.
  replace (0 / 1)%R with 0%R by lra. rewrite atan_0. ring.
Qed.

Lemma sample_poi_near (id : option Z) :
  near_track (GI := ScanIndex) [(0%R, 0%R)] [(0%R, 0%R)] 100 (sample_poi id).
Proof.
  exists 0, 0%R, 0%R. split; [|split].
  - apply (query_ball_point_spec (GeoIndex := ScanIndex) [(0%R, 0%R)]).
    exists (0%R, 0%R). split; [reflexivity|].
    unfold euclid, angular_margin. cbn [fst snd sample_poi poi_lat poi_lon].
    replace ((0 - 0) ^ 2 + (0 - 0) ^ 2)%R with 0%R by ring.
    rewrite sqrt_0. lra.
  - reflexivity.
  - simpl. rewrite haversine_same_point. lra.
Qed.

Lemma sample_run (limit : nat) (lat_divisions lon_divisions : Z)
    (show_bboxes : bool) :
  process_gpx_and_pois (GI := ScanIndex) sample_post (S limit) sample_gpx
    ["water"%string] 100 0.5 lat_divisions lon_divisions show_bboxes []
  = (Ok (sample_gpx, [sample_poi (Some 1%Z); sample_poi (Some 2%Z)],
         if show_bboxes then Some [sample_bounds] else None),
     [sample_request]).
Proof.
  rewrite (process_nonempty_track _ _ _ _ _ _ _ _ _ _ sample_bounds);
    [|discriminate|reflexivity].
  rewrite (small_root_plan (GI := ScanIndex) sample_gpx 100 0.5 _ _ limit
             sample_bounds);
    [|discriminate|lra|reflexivity|unfold sample_bounds, bbox_area; lra].
  rewrite (query_each_single _ _ _ ["[amenity=drinking_water]"%string]);
    [|reflexivity].
  unfold sample_post at 1. simpl app.
  replace (deduplicate_pois_by_id _).1
    with [sample_poi (Some 1%Z); sample_poi (Some 2%Z)].
  - change (track_coords sample_gpx) with [(0%R, 0%R)].
    destruct (filter_cons_spec (GI := ScanIndex) [(0%R, 0%R)] 100
                (sample_poi (Some 2%Z)) []) as (o2 & H2 & Hn2 & _).
    injection H2 as <-. specialize (Hn2 (sample_poi_near _)).
    destruct (filter_cons_spec (GI := ScanIndex) [(0%R, 0%R)] 100
                (sample_poi (Some 1%Z)) [sample_poi (Some 2%Z)])
      as (o1 & H1 & Hn1 & _).
    rewrite Hn2 in H1. injection H1 as <-.
    rewrite (Hn1 (sample_poi_near _)). reflexivity.
  - symmetry.
    change [sample_poi (Some 1%Z); sample_poi (Some 2%Z); sample_poi (Some 1%Z);
            sample_poi None]
      with (([] ++ [sample_poi (Some 1%Z)] ++ [sample_poi (Some 2%Z)]
             ++ [sample_poi (Some 1%Z)]) ++ [sample_poi None]).
    rewrite deduplicate_snoc. simpl app.
    change [sample_poi (Some 1%Z); sample_poi (Some 2%Z); sample_poi (Some 1%Z)]
      with ([sample_poi (Some 1%Z); sample_poi (Some 2%Z)]
            ++ [sample_poi (Some 1%Z)]).
    rewrite deduplicate_snoc.
    change [sample_poi (Some 1%Z); sample_poi (Some 2%Z)]
      with ([sample_poi (Some 1%Z)] ++ [sample_poi (Some 2%Z)]).
    rewrite deduplicate_snoc.
    change [sample_poi (Some 1%Z)] with ([] ++ [sample_poi (Some 1%Z)]) at 1.
    rewrite deduplicate_snoc.
    reflexivity.
Qed.

(** ** Unknown POI types *)

Lemma dict_get_known (d : list (string * string)) (key : string) :
  key ∈ d.*1 -> exists v, dict_get d key = Ok v.
Proof.
  induction d as [|[k v] d IH]; simpl; [intros H; inversion H|].
  intros H. destruct (decide (k = key)) as [_|Hne]; [eauto|].
  apply IH. apply elem_of_cons in H as [H|H]; [congruence | exact H].
Qed.

Lemma dict_get_unknown (d : list (string * string)) (key : string) :
  key ∉ d.*1 -> dict_get d key = Raise (KeyError key).
Proof.
  induction d as [|[k v] d IH]; simpl; [reflexivity|].
  intros H. destruct (decide (k = key)) as [->|Hne].
  - exfalso. apply H. left.
  - apply IH. intros Hin. apply H. right. exact Hin.
Qed.

(** The first POI type outside the catalogue is the key of the error. *)
Lemma tag_filters_unknown (poi_types : list string) :
  ~ Forall known_poi_type poi_types ->
  exists poi_type,
    poi_type ∈ poi_types /\ ~ known_poi_type poi_type /\
    tag_filters poi_types = Raise (KeyError poi_type).
Proof.
  induction poi_types as [|t ts IH]; intros Hbad.
  - exfalso. apply Hbad. constructor.
  - cbn [tag_filters]. destruct (decide (t ∈ AMENITIES.*1)) as [Hin|Hout].
    + destruct (dict_get_known AMENITIES t Hin) as [v ->]. cbn [rbind].
      destruct IH as (t' & Ht' & Hunk & ->).
      { intros Hall. apply Hbad. constructor; assumption. }
      exists t'. split; [right; exact Ht' | split; [exact Hunk | reflexivity]].
    + rewrite (dict_get_unknown AMENITIES t Hout).
      exists t. split; [left | split; [exact Hout | reflexivity]].
Qed.

(** ** The claims on the pipeline *)

Section PipelineClaims.
Context `{GI : GeoIndex}.
Variable post : Request -> result (list POI).
Variable recursion_limit : nat.

(** C7. For every list of raw POIs and every track, the proximity filter
    applied to the output of the deduplication returns a list whose records
    all have an identifier and in which no identifier occurs twice: it is a
    subsequence of the deduplicated list, so no record is appended twice.
    The same holds of the POIs of every run of [process_gpx_and_pois] that
    returns. *)
Theorem pipeline_identifiers_unique (pois : list POI) (pts : list Coord)
    (max_distance_m : R) :
  (exists out,
     filter_pois_near_track pts (KDTree pts) (deduplicate_pois_by_id pois).1
       max_distance_m = Ok out /\
     out `sublist_of` (deduplicate_pois_by_id pois).1 /\
     NoDup (poi_id <$> out) /\
     (forall p, p ∈ out -> exists k, poi_id p = Some k)) /\
  (forall gpx poi_types max_area lat_divisions lon_divisions show_bboxes sent
          gpx' filtered_pois cells sent',
     process_gpx_and_pois post recursion_limit gpx poi_types max_distance_m
       max_area lat_divisions lon_divisions show_bboxes sent
     = (Ok (gpx', filtered_pois, cells), sent') ->
     NoDup (poi_id <$> filtered_pois) /\
     (forall p, p ∈ filtered_pois -> exists k, poi_id p = Some k)).
Proof.
  split; [apply filter_deduplicate_ids|].
  intros gpx poi_types max_area lat lon show sent gpx' filtered cells sent' Hrun.
  destruct (get_bounds gpx max_distance_m) as [bounds|] eqn:Hb.
  - assert (Hne : gpx_points gpx <> []).
    { intros H. apply (get_bounds_None gpx max_distance_m) in H. congruence. }
    rewrite (process_nonempty_track _ _ _ _ _ _ _ _ _ _ bounds Hne Hb) in Hrun.
    destruct (get_relevant_bboxes _ _ _ _ _ _ _) as [bboxes|e]; [|discriminate].
    destruct (query_each _ _ _ _ _ _) as [[raw|e] sent'']; [|discriminate].
    destruct (filter_deduplicate_ids (track_coords gpx) raw max_distance_m)
      as (out & Hout & _ & Hnodup & Hids).
    rewrite Hout in Hrun. injection Hrun as _ <- _ _. auto.
  - apply get_bounds_None in Hb.
    rewrite process_empty_track in Hrun by exact Hb.
    injection Hrun as _ <- _ _. split; [constructor|].
    intros p Hp. inversion Hp.
Qed.

(** C8. On a track without points [get_bounds] returns [None] and
    [process_gpx_and_pois] returns at once, with no POI and an empty list of
    cells: whatever the recursion limit (so no region is planned, a limit of
    0 would raise) and whatever the query collaborator, and the requests
    sent are those sent before the call. *)
Theorem empty_track_short_circuit (gpx : GPX) (poi_types : list string)
    (max_distance_m max_area : R) (lat_divisions lon_divisions : Z)
    (show_bboxes : bool) (sent : list Request) :
  gpx_points gpx = [] ->
  get_bounds gpx max_distance_m = None /\
  process_gpx_and_pois post recursion_limit gpx poi_types max_distance_m
    max_area lat_divisions lon_divisions show_bboxes sent
  = (Ok (gpx, [], Some []), sent).
Proof.
  intros Hempty. split.
  - apply get_bounds_None, Hempty.
  - apply process_empty_track, Hempty.
Qed.

(** C9, as the code has it.  [process_gpx_and_pois] checks no parameter
    before it plans; a parameter is found wrong where it is used, if it is
    used.  On a track with points: a POI type outside the catalogue raises
    [KeyError] when the query of the first planned cell is built, before any
    request is sent, if a cell was planned at all; a zero [lat_divisions] or
    [lon_divisions] raises [ZeroDivisionError], before any request, when the
    root region is over the area threshold; and when the root region is at
    or under the threshold the divisions are not read, the run is the same
    for all their values. *)
Theorem parameters_checked_where_used (gpx : GPX) (poi_types : list string)
    (max_distance_m max_area : R) (lat_divisions lon_divisions : Z)
    (show_bboxes : bool) (sent : list Request) (bounds : BBox) :
  gpx_points gpx <> [] ->
  get_bounds gpx max_distance_m = Some bounds ->
  (forall cell cells,
     get_relevant_bboxes recursion_limit bounds (KDTree (track_coords gpx))
       (track_coords gpx) max_area lat_divisions lon_divisions
     = Ok (cell :: cells) ->
     ~ Forall known_poi_type poi_types ->
     exists poi_type,
       poi_type ∈ poi_types /\ ~ known_poi_type poi_type /\
       process_gpx_and_pois post recursion_limit gpx poi_types max_distance_m
         max_area lat_divisions lon_divisions show_bboxes sent
       = (Raise (KeyError poi_type), sent)) /\
  ((0 <= max_distance_m)%R -> (max_area < bbox_area bounds)%R ->
   (1 <= recursion_limit)%nat ->
   lat_divisions = 0%Z \/ lon_divisions = 0%Z ->
   process_gpx_and_pois post recursion_limit gpx poi_types max_distance_m
     max_area lat_divisions lon_divisions show_bboxes sent
   = (Raise ZeroDivisionError, sent)) /\
  ((0 <= max_distance_m)%R -> (bbox_area bounds <= max_area)%R ->
   (1 <= recursion_limit)%nat ->
   forall lat_divisions' lon_divisions',
     process_gpx_and_pois post recursion_limit gpx poi_types max_distance_m
       max_area lat_divisions lon_divisions show_bboxes sent
     = process_gpx_and_pois post recursion_limit gpx poi_types max_distance_m
         max_area lat_divisions' lon_divisions' show_bboxes sent).
Proof.
  intros Hne Hb. repeat apply conj.
  - intros cell cells Hplan Hbad.
    destruct (tag_filters_unknown poi_types Hbad) as (t & Ht & Hunk & Hraise).
    exists t. split; [exact Ht | split; [exact Hunk|]].
    rewrite (process_nonempty_track _ _ _ _ _ _ _ _ _ _ bounds Hne Hb), Hplan.
    rewrite (query_each_KeyError _ _ _ _ _ _ _ _ Hraise). reflexivity.
  - intros Hd Hlarge Hlimit Hzero.
    rewrite (process_nonempty_track _ _ _ _ _ _ _ _ _ _ bounds Hne Hb).
    destruct recursion_limit as [|limit]; [lia|].
    rewrite (large_root_zero_divisions gpx max_distance_m max_area _ _ limit
               bounds Hne Hd Hb Hlarge Hzero).
    reflexivity.
  - intros Hd Hsmall Hlimit lat' lon'.
    rewrite !(process_nonempty_track _ _ _ _ _ _ _ _ _ _ bounds Hne Hb).
    destruct recursion_limit as [|limit]; [lia|].
    rewrite !(small_root_plan gpx max_distance_m max_area _ _ limit bounds
                Hne Hd Hb Hsmall).
    reflexivity.
Qed.

(** C10, as the code has it.  When [show_bboxes] is false, a run of
    [process_gpx_and_pois] on a track with points returns [None] for the
    list of cells, however many cells were planned; on a track without
    points it returns the empty list. *)
Theorem cells_withheld_without_show_bboxes (gpx : GPX) (poi_types : list string)
    (max_distance_m max_area : R) (lat_divisions lon_divisions : Z)
    (sent sent' : list Request) (gpx' : GPX) (filtered_pois : list POI)
    (cells : option (list BBox)) :
  process_gpx_and_pois post recursion_limit gpx poi_types max_distance_m
    max_area lat_divisions lon_divisions false sent
  = (Ok (gpx', filtered_pois, cells), sent') ->
  (gpx_points gpx <> [] -> cells = None) /\
  (gpx_points gpx = [] -> cells = Some []).
Proof.
  intros Hrun. split.
  - intros Hne.
    destruct (get_bounds gpx max_distance_m) as [bounds|] eqn:Hb.
    + rewrite (process_nonempty_track _ _ _ _ _ _ _ _ _ _ bounds Hne Hb) in Hrun.
      destruct (get_relevant_bboxes _ _ _ _ _ _ _) as [bboxes|e]; [|discriminate].
      destruct (query_each _ _ _ _ _ _) as [[raw|e] sent'']; [|discriminate].
      destruct (filter_pois_near_track _ _ _ _) as [out|e]; [|discriminate].
      injection Hrun as _ _ <- _. reflexivity.
    + apply get_bounds_None in Hb. contradiction.
  - intros Hempty. rewrite process_empty_track in Hrun by exact Hempty.
    injection Hrun as _ _ <- _. reflexivity.
Qed.
End PipelineClaims.

(** * The claims at concrete inputs *)

(** The filter keeps a POI that sits on the one point of the track. *)
Lemma filter_keeps_near_pois_at_sample :
  ([(0%R, 0%R)] <> [] /\ (0 < 100)%R) /\
  exists out,
    filter_pois_near_track (GI := ScanIndex) [(0%R, 0%R)] [(0%R, 0%R)]
      [sample_poi (Some 1%Z)] 100 = Ok out /\
    sample_poi (Some 1%Z) ∈ out.
Proof.
  split; [split; [discriminate | lra]|].
  destruct (filter_keeps_near_pois (GI := ScanIndex) [(0%R, 0%R)]
              [sample_poi (Some 1%Z)] 100)
    as (out & Hout & _ & Hiff & _); [discriminate | lra |].
  exists out. split; [exact Hout|].
  apply Hiff. split; [left | apply sample_poi_near].
Defined.

(** The square of side 2 around the origin, planned for a track of one
    point with the default divisions. *)
Lemma planner_covers_track_at_sample :
  ((0 < 0.5)%R /\ (2 <= 2)%Z /\
   forall p : Coord, p ∈ [(0%R, 0%R)] -> in_bbox p ((-1)%R, (-1)%R, 1%R, 1%R)) /\
  exists cells,
    get_relevant_bboxes (GI := ScanIndex)
      (S (depth_bound (bbox_area ((-1)%R, (-1)%R, 1%R, 1%R) / 0.5)))
      ((-1)%R, (-1)%R, 1%R, 1%R) [(0%R, 0%R)] [(0%R, 0%R)] 0.5 2 2 = Ok cells /\
    exists cell, cell ∈ cells /\ in_bbox (0%R, 0%R) cell.
Proof.
  assert (Hroot : forall p : Coord,
            p ∈ [(0%R, 0%R)] -> in_bbox p ((-1)%R, (-1)%R, 1%R, 1%R)).
  { intros p Hp. apply list_elem_of_singleton in Hp. subst p.
    unfold in_bbox. simpl. lra. }
  split; [split; [lra | split; [lia | exact Hroot]]|].
  destruct (planner_covers_track (GI := ScanIndex) [(0%R, 0%R)]
              ((-1)%R, (-1)%R, 1%R, 1%R) 0.5 2 2)
    as ((cells & Hcells) & Hcover & _); [lra | lia | lia | exact Hroot |].
  exists cells. split; [exact Hcells|].
  apply (Hcover _ _ Hcells). left.
Defined.

Lemma planner_cells_under_cap_at_sample :
  ((0 < 0.5)%R /\ (2 <= 2)%Z) /\
  exists cells,
    get_relevant_bboxes (GI := ScanIndex)
      (S (depth_bound (bbox_area ((-1)%R, (-1)%R, 1%R, 1%R) / 0.5)))
      ((-1)%R, (-1)%R, 1%R, 1%R) [(0%R, 0%R)] [(0%R, 0%R)] 0.5 2 2 = Ok cells /\
    Forall (fun cell : BBox =>
              ((cell.1.2 - cell.1.1.1) * (cell.2 - cell.1.1.2) <= 0.5)%R) cells.
Proof.
  split; [split; [lra | lia]|].
  destruct (planner_cells_under_cap (GI := ScanIndex) [(0%R, 0%R)]
              ((-1)%R, (-1)%R, 1%R, 1%R) 0.5 2 2)
    as ((cells & Hcells) & Hcap); [lra | lia | lia |].
  exists cells. split; [exact Hcells | exact (Hcap _ _ Hcells)].
Defined.

Lemma planner_terminates_at_sample :
  ((-1 < 1)%R /\ (0 < 0.5)%R /\ (2 <= 2)%Z) /\
  exists cells,
    get_relevant_bboxes (GI := ScanIndex)
      (S (depth_bound (bbox_area ((-1)%R, (-1)%R, 1%R, 1%R) / 0.5)))
      ((-1)%R, (-1)%R, 1%R, 1%R) [(0%R, 0%R)] [(0%R, 0%R)] 0.5 2 2 = Ok cells.
Proof.
  split; [split; [lra | split; [lra | lia]]|].
  destruct (planner_terminates (GI := ScanIndex) [(0%R, 0%R)]
              ((-1)%R, (-1)%R, 1%R, 1%R) 0.5 2 2)
    as (Hend & _); [simpl; lra | simpl; lra | lra | lia | lia |].
  apply Hend. lia.
Defined.

Lemma get_bounds_margin_at_sample :
  (gpx_points sample_gpx <> [] /\ (0 < 100)%R) /\
  exists bounds,
    get_bounds sample_gpx 100 = Some bounds /\
    (bounds.1.1.1 < bounds.1.2)%R /\ (bounds.1.1.2 < bounds.2)%R.
Proof.
  split; [split; [discriminate | lra]|].
  destruct (get_bounds_margin sample_gpx 100)
    as (a & b & c & d & _ & _ & _ & _ & Hb & Hlat & Hlon);
    [discriminate | lra |].
  eexists. split; [exact Hb|]. split; [exact Hlat | exact Hlon].
Defined.

(** The sample run returns the POIs 1 and 2, once each. *)
Lemma pipeline_identifiers_unique_at_sample :
  NoDup (poi_id <$> [sample_poi (Some 1%Z); sample_poi (Some 2%Z)]) /\
  (forall p, p ∈ [sample_poi (Some 1%Z); sample_poi (Some 2%Z)] ->
             exists k, poi_id p = Some k).
Proof.
  exact (proj2 (pipeline_identifiers_unique (GI := ScanIndex) sample_post 1000
                  [] [] 100)
           _ _ _ _ _ _ _ _ _ _ _ (sample_run 999 2 2 true)).
Defined.

(** A track whose only segment is empty, a recursion limit of 0 and a
    collaborator that fails. *)
Lemma empty_track_short_circuit_at_sample :
  gpx_points (mkGPX [mkTrack [mkSegment []]]) = [] /\
  get_bounds (mkGPX [mkTrack [mkSegment []]]) 100 = None /\
  process_gpx_and_pois (GI := ScanIndex) (fun _ => Raise RequestException) 0
    (mkGPX [mkTrack [mkSegment []]]) ["water"%string] 100 0.5 2 2 true []
  = (Ok (mkGPX [mkTrack [mkSegment []]], [], Some []), []).
Proof.
  split; [reflexivity|].
  apply (empty_track_short_circuit (GI := ScanIndex)). reflexivity.
Defined.

(** With both divisions 0 the sample run is not valid for the
    specification, and it sends its request and returns. *)
Lemma invalid_divisions_run :
  ~ valid_parameters ["water"%string] 100 0.5 0 0 /\
  process_gpx_and_pois (GI := ScanIndex) sample_post 1000 sample_gpx
    ["water"%string] 100 0.5 0 0 false []
  = (Ok (sample_gpx, [sample_poi (Some 1%Z); sample_poi (Some 2%Z)], None),
     [sample_request]) /\
  ~ fails_before_io
      (process_gpx_and_pois (GI := ScanIndex) sample_post 1000 sample_gpx
         ["water"%string] 100 0.5 0 0 false).
Proof.
  split; [|split].
  - intros (_ & _ & _ & H & _). lia.
  - apply (sample_run 999 0 0 false).
  - intros H. destruct (H []) as [e He].
    rewrite (sample_run 999 0 0 false) in He. discriminate.
Qed.

Lemma parameters_checked_where_used_at_sample :
  (gpx_points sample_gpx <> [] /\
   get_bounds sample_gpx 100 = Some sample_bounds) /\
  process_gpx_and_pois (GI := ScanIndex) sample_post 1000 sample_gpx
    ["water"%string] 100 0.5 0 0 false []
  = process_gpx_and_pois (GI := ScanIndex) sample_post 1000 sample_gpx
      ["water"%string] 100 0.5 2 2 false [].
Proof.
  split; [split; [discriminate | reflexivity]|].
  destruct (parameters_checked_where_used (GI := ScanIndex) sample_post 1000
              sample_gpx ["water"%string] 100 0.5 0 0 false [] sample_bounds)
    as (_ & _ & Hsame); [discriminate | reflexivity |].
  apply Hsame; [lra | unfold sample_bounds, bbox_area; lra | lia].
Defined.

(** With [show_bboxes] false a track without points gets the empty list,
    not [None]. *)
Lemma empty_track_cells_not_None :
  process_gpx_and_pois (GI := ScanIndex) sample_post 1000 (mkGPX [])
    ["water"%string] 100 0.5 2 2 false []
  = (Ok (mkGPX [], [], Some []), []) /\
  Some [] <> (None : option (list BBox)).
Proof. split; [reflexivity | discriminate]. Qed.

Lemma cells_withheld_without_show_bboxes_at_sample :
  process_gpx_and_pois (GI := ScanIndex) sample_post 1000 sample_gpx
    ["water"%string] 100 0.5 2 2 false []
  = (Ok (sample_gpx, [sample_poi (Some 1%Z); sample_poi (Some 2%Z)], None),
     [sample_request]) /\
  (gpx_points sample_gpx <> [] -> (None : option (list BBox)) = None) /\
  (gpx_points sample_gpx = [] -> (None : option (list BBox)) = Some []).
Proof.
  split; [apply (sample_run 999 2 2 false)|].
  exact (cells_withheld_without_show_bboxes (GI := ScanIndex) sample_post 1000
           _ _ _ _ _ _ _ _ _ _ _ (sample_run 999 2 2 false)).
Defined.

(** * Further properties of [core.py] *)

(** ** [sanitize_gpx_text] *)

Example sanitize_sample :
  sanitize_gpx_text "<name>Tom & Jerry &amp; Co &lt;3 &</name>"
  = "<name>Tom &amp; Jerry &amp; Co &lt;3 &amp;</name>"%string.
Proof. reflexivity. Qed.

(** A tail without ['&'] starts the sanitized text exactly when it starts
    the text. *)
Lemma prefix_sanitize (tail text : string) :
  amp_free tail = true ->
  String.prefix tail (sanitize_gpx_text text) = String.prefix tail text.
Proof.
  assert (Hnil : forall s, String.prefix "" s = true) by (intros []; reflexivity).
  revert text. induction tail as [|a tail IH]; intros text Hfree.
  - rewrite !Hnil. reflexivity.
  - simpl in Hfree. apply andb_true_iff in Hfree as [Ha Hfree].
    apply negb_true_iff in Ha.
    destruct text as [|c rest]; [reflexivity|].
    cbn [sanitize_gpx_text]. destruct (Ascii.eqb c "&"%char) eqn:Hc.
    + apply Ascii.eqb_eq in Hc. subst c.
      assert (Hne : a <> "&"%char).
      { intros ->. rewrite Ascii.eqb_refl in Ha. discriminate. }
      destruct (entity_follows rest); simpl;
        destruct (Ascii.ascii_dec a "&"%char); congruence.
    + simpl. destruct (Ascii.ascii_dec a c); [apply IH, Hfree | reflexivity].
Qed.

Lemma entity_follows_sanitize (text : string) :
  entity_follows (sanitize_gpx_text text) = entity_follows text.
Proof.
  unfold entity_follows, entity_tails. cbn [existsb].
  rewrite !prefix_sanitize by reflexivity. reflexivity.
Qed.

Lemma sanitize_escaped (data : string) :
  escaped (sanitize_gpx_text data) = true.
Proof.
  induction data as [|c rest IH]; [reflexivity|].
  cbn [sanitize_gpx_text]. destruct (Ascii.eqb c "&"%char) eqn:Hc.
  - destruct (entity_follows rest) eqn:Hf.
    + cbn [escaped]. rewrite Ascii.eqb_refl, entity_follows_sanitize, Hf, IH.
      reflexivity.
    + change ("&amp;" +:+ sanitize_gpx_text rest)%string
        with (String "&" (String "a" (String "m" (String "p"
                (String ";" (sanitize_gpx_text rest)))))).
      cbn. rewrite IH. destruct (sanitize_gpx_text rest); reflexivity.
  - cbn [escaped]. rewrite Hc, IH. reflexivity.
Qed.

Lemma sanitize_escaped_id (data : string) :
  escaped data = true -> sanitize_gpx_text data = data.
Proof.
  induction data as [|c rest IH]; [reflexivity|].
  cbn [escaped sanitize_gpx_text]. intros H.
  apply andb_true_iff in H as [Hc Hrest].
  destruct (Ascii.eqb c "&"%char) eqn:Hamp.
  - apply Ascii.eqb_eq in Hamp. subst c.
    rewrite Hc, IH by exact Hrest. reflexivity.
  - rewrite IH by exact Hrest. reflexivity.
Qed.

Lemma amp_free_escaped (text : string) :
  amp_free text = true -> escaped text = true.
Proof.
  induction text as [|c rest IH]; [reflexivity|]. cbn [amp_free escaped].
  intros H. apply andb_true_iff in H as [Hc Hrest].
  apply negb_true_iff in Hc. rewrite Hc, IH by exact Hrest. reflexivity.
Qed.

(** X1. The text returned by [sanitize_gpx_text] has no bare ampersand:
    each of its ['&'] is followed by [amp;], [quot;], [lt;], [gt;] or
    [apos;].  A text without ['&'] is returned as it is. *)
Theorem sanitize_escapes_every_ampersand (data : string) :
  escaped (sanitize_gpx_text data) = true /\
  (amp_free data = true -> sanitize_gpx_text data = data).
Proof.
  split; [apply sanitize_escaped|].
  intros Hfree. apply sanitize_escaped_id, amp_free_escaped, Hfree.
Qed.

(** X2. [sanitize_gpx_text] returns its argument unchanged exactly when
    every ['&'] of the argument is already followed by an entity tail; so
    sanitizing twice is sanitizing once. *)
Theorem sanitize_fixed_points (data : string) :
  (sanitize_gpx_text data = data <-> escaped data = true) /\
  sanitize_gpx_text (sanitize_gpx_text data) = sanitize_gpx_text data.
Proof.
  split; [split|].
  - intros H. rewrite <- H. apply sanitize_escaped.
  - apply sanitize_escaped_id.
  - apply sanitize_escaped_id, sanitize_escaped.
Qed.

(** ** [_subdivide_bbox]: errors, size and order *)

Lemma range_lookup (n : Z) (i : nat) :
  i < Z.to_nat n -> range n !! i = Some (Z.of_nat i).
Proof.
  intros Hi. unfold range. rewrite list_lookup_fmap, lookup_seq_lt by exact Hi.
  reflexivity.
Qed.

Lemma length_range (n : Z) : length (range n) = Z.to_nat n.
Proof. unfold range. rewrite length_fmap, length_seq. reflexivity. Qed.

(** Rows of one length laid end to end. *)
Lemma flat_map_rows {A B} (g : A -> list B) (n : nat) (rows : list A) :
  (forall a, length (g a) = n) ->
  length (flat_map g rows) = length rows * n /\
  forall i j a, rows !! i = Some a -> j < n ->
    flat_map g rows !! (i * n + j) = g a !! j.
Proof.
  intros Hlen. induction rows as [|r rows [IHlen IH]]; simpl.
  - split; [reflexivity|]. intros i j a H. discriminate.
  - split; [rewrite length_app, Hlen, IHlen; reflexivity|].
    intros [|i] j a Hi Hj; simpl in *.
    + injection Hi as ->. apply lookup_app_l. rewrite Hlen. exact Hj.
    + rewrite lookup_app_r by (rewrite Hlen; lia).
      rewrite Hlen. replace (n + i * n + j - n) with (i * n + j) by lia.
      apply IH; assumption.
Qed.

Lemma subdivide_bbox_length (bbox : BBox) (lat_divisions lon_divisions : Z) :
  lat_divisions <> 0%Z -> lon_divisions <> 0%Z ->
  exists subs,
    _subdivide_bbox bbox lat_divisions lon_divisions = Ok subs /\
    length subs = Z.to_nat lat_divisions * Z.to_nat lon_divisions.
Proof.
  intros Hlat Hlon. destruct bbox as [[[south west] north] east].
  unfold _subdivide_bbox.
  destruct (decide (lat_divisions = 0%Z)); [contradiction|].
  destruct (decide (lon_divisions = 0%Z)); [contradiction|].
  eexists. split; [reflexivity|].
  match goal with |- length (flat_map ?g _) = _ =>
    destruct (flat_map_rows g (Z.to_nat lon_divisions) (range lat_divisions))
      as [Hlen _]
  end.
  { intros a. rewrite length_fmap. apply length_range. }
  rewrite Hlen, length_range. reflexivity.
Qed.

(** X3. [_subdivide_bbox] raises [ZeroDivisionError] exactly when one of the
    two divisions is 0; otherwise it returns
    [max(lat_divisions, 0) * max(lon_divisions, 0)] cells, so none at all
    when a division is negative. *)
Theorem subdivide_bbox_size (bbox : BBox) (lat_divisions lon_divisions : Z) :
  (_subdivide_bbox bbox lat_divisions lon_divisions = Raise ZeroDivisionError
   <-> lat_divisions = 0%Z \/ lon_divisions = 0%Z) /\
  (lat_divisions <> 0%Z -> lon_divisions <> 0%Z ->
   exists subs,
     _subdivide_bbox bbox lat_divisions lon_divisions = Ok subs /\
     length subs = Z.to_nat lat_divisions * Z.to_nat lon_divisions /\
     ((lat_divisions < 0)%Z \/ (lon_divisions < 0)%Z -> subs = [])).
Proof.
  destruct bbox as [[[south west] north] east]. unfold _subdivide_bbox.
  destruct (decide (lat_divisions = 0%Z)) as [Hlat|Hlat].
  { split; [tauto | contradiction]. }
  destruct (decide (lon_divisions = 0%Z)) as [Hlon|Hlon].
  { split; [tauto | contradiction]. }
  split; [split; [discriminate | tauto]|].
  intros _ _. eexists. split; [reflexivity|].
  match goal with |- length (flat_map ?g _) = _ /\ _ =>
    destruct (flat_map_rows g (Z.to_nat lon_divisions) (range lat_divisions))
      as [Hlen _]
  end.
  { intros a. rewrite length_fmap. apply length_range. }
  rewrite Hlen, length_range. split; [reflexivity|].
  intros Hneg. apply length_zero_iff_nil. rewrite Hlen, length_range. lia.
Qed.

(** X4. The cells come in row-major order: for divisions that are not 0,
    the cell at index [i * lon_divisions + j] is the one of row [i] (from
    the south) and column [j] (from the west). *)
Theorem subdivide_bbox_row_major (bbox : BBox) (lat_divisions lon_divisions : Z)
    (i j : nat) :
  lat_divisions <> 0%Z -> lon_divisions <> 0%Z ->
  i < Z.to_nat lat_divisions -> j < Z.to_nat lon_divisions ->
  exists subs,
    _subdivide_bbox bbox lat_divisions lon_divisions = Ok subs /\
    subs !! (i * Z.to_nat lon_divisions + j)
    = Some (grid_cell bbox lat_divisions lon_divisions
              (Z.of_nat i) (Z.of_nat j)).
Proof.
  intros Hlat Hlon Hi Hj. destruct bbox as [[[south west] north] east].
  unfold _subdivide_bbox.
  destruct (decide (lat_divisions = 0%Z)); [contradiction|].
  destruct (decide (lon_divisions = 0%Z)); [contradiction|].
  eexists. split; [reflexivity|].
  match goal with |- flat_map ?g _ !! _ = _ =>
    destruct (flat_map_rows g (Z.to_nat lon_divisions) (range lat_divisions))
      as [_ Hrow]
  end.
  { intros a. rewrite length_fmap. apply length_range. }
  rewrite (Hrow i j (Z.of_nat i)) by (try apply range_lookup; assumption).
  rewrite list_lookup_fmap, range_lookup by exact Hj. reflexivity.
Qed.

Lemma Rsum_constant (xs : list R) (c : R) :
  Forall (fun x => x = c) xs -> Rsum xs = (INR (length xs) * c)%R.
Proof.
  induction 1 as [|x xs -> _ IH]; [simpl; lra|].
  cbn [Rsum fold_right length]. fold (Rsum xs). rewrite IH, S_INR. lra.
Qed.

(** X5. For positive divisions the areas of the cells add up to the area of
    the subdivided region. *)
Theorem subdivide_bbox_area_sum (bbox : BBox) (lat_divisions lon_divisions : Z) :
  (1 <= lat_divisions)%Z -> (1 <= lon_divisions)%Z ->
  exists subs,
    _subdivide_bbox bbox lat_divisions lon_divisions = Ok subs /\
    Rsum (bbox_area <$> subs) = bbox_area bbox.
Proof.
  intros Hlat Hlon.
  destruct (subdivide_bbox_cells bbox lat_divisions lon_divisions)
    as (subs & Hsubs & Hcells); [lia | lia |].
  exists subs. split; [exact Hsubs|].
  destruct (subdivide_bbox_length bbox lat_divisions lon_divisions)
    as (subs' & Hsubs' & Hlen); [lia | lia |].
  rewrite Hsubs in Hsubs'. injection Hsubs' as <-.
  rewrite (Rsum_constant _
             (bbox_area bbox / (IZR lat_divisions * IZR lon_divisions))%R).
  - rewrite length_fmap, Hlen, mult_INR, !INR_IZR_INZ, !Z2Nat.id by lia.
    field. split; apply not_0_IZR; lia.
  - apply Forall_fmap, Forall_forall. intros sub Hsub.
    apply Hcells in Hsub as (i & j & _ & _ & ->).
    apply grid_cell_area; lia.
Qed.

(** ** [_bbox_contains_gpx_points]: the test is exact *)

Lemma bbox_contains_dilated `{GI : GeoIndex} (bbox : BBox) (pts : list Coord) :
  exists b,
    _bbox_contains_gpx_points bbox (KDTree pts) pts = Ok b /\
    (b = true <-> exists p, p ∈ pts /\ in_bbox p (dilated bbox)).
Proof.
  destruct bbox as [[[south west] north] east].
  unfold _bbox_contains_gpx_points, dilated, in_bbox.
  edestruct any_in_dilated_spec as (b & Hb & Hiff);
    [|exists b; split; [exact Hb|]].
  { intros i Hi. apply query_ball_point_spec in Hi as (q & Hq & _).
    rewrite Hq. eauto. }
  rewrite Hiff. split.
  - intros (i & lat & lon & _ & Hi & Hrect). exists (lat, lon).
    split; [apply list_elem_of_lookup; eauto | exact Hrect].
  - intros ([lat lon] & Hp & Hrect). cbn [fst snd] in Hrect.
    apply list_elem_of_lookup in Hp as [i Hi].
    exists i, lat, lon. split; [|split; [exact Hi | exact Hrect]].
    apply query_ball_point_spec. exists (lat, lon). split; [exact Hi|].
    eapply Rle_trans; [apply euclid_centre_le; apply Hrect|].
    match goal with |- (?x / 2 <= _)%R => assert (0 <= x)%R by apply sqrt_pos end.
    lra.
Qed.

(** X6. With the index built over the list of coordinates,
    [_bbox_contains_gpx_points] does not raise and answers [True] exactly
    when a track point lies in the region grown by 5% on each side: the
    radius query around the centre loses no point of that rectangle.  For a
    region with north < south or east < west the answer is [False]. *)
Theorem bbox_contains_exact `{GI : GeoIndex} (bbox : BBox) (pts : list Coord) :
  exists b,
    _bbox_contains_gpx_points bbox (KDTree pts) pts = Ok b /\
    (b = true <-> exists p, p ∈ pts /\ in_bbox p (dilated bbox)) /\
    ((bbox.1.2 < bbox.1.1.1)%R \/ (bbox.2 < bbox.1.1.2)%R -> b = false).
Proof.
  destruct (bbox_contains_dilated bbox pts) as (b & Hb & Hiff).
  exists b. split; [exact Hb|]. split; [exact Hiff|].
  intros Hinverted. destruct b; [|reflexivity].
  destruct (proj1 Hiff eq_refl) as ([lat lon] & _ & Hin).
  destruct bbox as [[[south west] north] east].
  unfold in_bbox, dilated in Hin. simpl in Hin, Hinverted. lra.
Qed.

(** ** [get_relevant_bboxes]: recursion limit, degenerate divisions, cells *)

Lemma extend_each_mono {A B} (f g : A -> result (list B)) (xs : list A)
    (acc r : list B) :
  (forall x rx, x ∈ xs -> f x = Ok rx -> g x = Ok rx) ->
  extend_each f xs acc = Ok r -> extend_each g xs acc = Ok r.
Proof.
  revert acc. induction xs as [|x xs IH]; intros acc Hfg; simpl; [auto|].
  intros H. apply rbind_Ok in H as (rx & Hx & Hrest).
  rewrite (Hfg x rx (list_elem_of_here x xs) Hx). simpl.
  apply IH; [|exact Hrest]. intros y ry Hy. apply Hfg. right. exact Hy.
Qed.

(** X7. A plan obtained under some recursion limit is the plan under every
    higher limit: the limit decides only whether [RecursionError] is
    raised. *)
Theorem get_relevant_bboxes_limit_irrelevant `{GI : GeoIndex} (fuel fuel' : nat)
    (bbox : BBox) (kd : kdtree) (coords : list Coord) (max_area : R)
    (lat_divisions lon_divisions : Z) (cells : list BBox) :
  get_relevant_bboxes fuel bbox kd coords max_area lat_divisions lon_divisions
  = Ok cells ->
  fuel <= fuel' ->
  get_relevant_bboxes fuel' bbox kd coords max_area lat_divisions lon_divisions
  = Ok cells.
Proof.
  revert fuel' bbox cells.
  induction fuel as [|fuel IH]; intros fuel' bbox cells; [discriminate|].
  intros H Hle. destruct fuel' as [|fuel']; [lia|].
  cbn [get_relevant_bboxes] in *.
  destruct (_bbox_contains_gpx_points bbox kd coords) as [b|e]; [|discriminate].
  cbn [rbind] in *. destruct (negb b); [exact H|].
  destruct (decide (bbox_area bbox <= max_area)%R); [exact H|].
  destruct (_subdivide_bbox bbox lat_divisions lon_divisions) as [subs|e];
    [|discriminate].
  cbn [rbind] in *. eapply extend_each_mono; [|exact H].
  intros sub r _ Hr. apply IH; [exact Hr | lia].
Qed.

(** X8. With [lat_divisions = lon_divisions = 1] the only cell of a
    subdivision is the region itself: a region that holds a track point and
    is over the area threshold is never answered, every recursion limit is
    reached. *)
Theorem get_relevant_bboxes_one_by_one `{GI : GeoIndex} (fuel : nat)
    (bbox : BBox) (pts : list Coord) (p : Coord) (max_area : R) :
  p ∈ pts -> in_bbox p bbox -> (max_area < bbox_area bbox)%R ->
  get_relevant_bboxes fuel bbox (KDTree pts) pts max_area 1 1
  = Raise RecursionError.
Proof.
  intros Hp Hin Hlarge. induction fuel as [|fuel IH]; [reflexivity|].
  cbn [get_relevant_bboxes].
  rewrite (bbox_contains_point bbox pts p Hp Hin). cbn [rbind negb].
  rewrite decide_False by lra.
  destruct bbox as [[[south west] north] east].
  assert (Hsub : _subdivide_bbox (south, west, north, east) 1 1
                 = Ok [(south, west, north, east)]).
  { unfold _subdivide_bbox. rewrite !decide_False by lia.
    change (range 1) with [0%Z]. cbn [flat_map fmap list_fmap app].
    assert (E : forall a b c d a' b' c' d' : R,
              a = a' -> b = b' -> c = c' -> d = d' ->
              (a, b, c, d) = (a', b', c', d'))
      by (intros; subst; reflexivity).
    do 2 f_equal. apply E; rewrite ?plus_IZR; lra. }
  rewrite Hsub. cbn [rbind extend_each]. rewrite IH. reflexivity.
Qed.

(** X9. With a negative division (and none equal to 0) a region that holds
    a track point and is over the area threshold gets the empty plan: no
    error is raised and no cell is returned. *)
Theorem get_relevant_bboxes_negative_divisions `{GI : GeoIndex} (fuel : nat)
    (bbox : BBox) (pts : list Coord) (p : Coord) (max_area : R)
    (lat_divisions lon_divisions : Z) :
  p ∈ pts -> in_bbox p bbox -> (max_area < bbox_area bbox)%R ->
  lat_divisions <> 0%Z -> lon_divisions <> 0%Z ->
  (lat_divisions < 0)%Z \/ (lon_divisions < 0)%Z ->
  get_relevant_bboxes (S fuel) bbox (KDTree pts) pts max_area
    lat_divisions lon_divisions = Ok [].
Proof.
  intros Hp Hin Hlarge Hlat Hlon Hneg. cbn [get_relevant_bboxes].
  rewrite (bbox_contains_point bbox pts p Hp Hin). cbn [rbind negb].
  rewrite decide_False by lra.
  destruct (subdivide_bbox_length bbox lat_divisions lon_divisions Hlat Hlon)
    as (subs & -> & Hlen).
  replace subs with (@nil BBox); [reflexivity|].
  symmetry. apply length_zero_iff_nil. rewrite Hlen. lia.
Qed.

Lemma grid_cell_within (bbox root : BBox) (lat_divisions lon_divisions i j : Z) :
  (0 <= i < lat_divisions)%Z -> (0 <= j < lon_divisions)%Z ->
  bbox_within bbox root ->
  bbox_within (grid_cell bbox lat_divisions lon_divisions i j) root.
Proof.
  destruct bbox as [[[south west] north] east].
  destruct root as [[[rs rw] rn] re].
  intros Hi Hj [(H1 & H2 & H3) (H4 & H5 & H6)]. unfold grid_cell, bbox_within.
  assert (Hn : (0 < IZR lat_divisions)%R) by (apply IZR_lt; lia).
  assert (Hm : (0 < IZR lon_divisions)%R) by (apply IZR_lt; lia).
  assert (Hi0 : (0 <= IZR i)%R) by (apply IZR_le; lia).
  assert (Hi1 : (IZR (i + 1) <= IZR lat_divisions)%R) by (apply IZR_le; lia).
  assert (Hi2 : (IZR (i + 1) = IZR i + 1)%R) by apply plus_IZR.
  assert (Hj0 : (0 <= IZR j)%R) by (apply IZR_le; lia).
  assert (Hj1 : (IZR (j + 1) <= IZR lon_divisions)%R) by (apply IZR_le; lia).
  assert (Hj2 : (IZR (j + 1) = IZR j + 1)%R) by apply plus_IZR.
  set (ls := ((north - south) / IZR lat_divisions)%R).
  set (lo := ((east - west) / IZR lon_divisions)%R).
  assert (Hls : (0 <= ls)%R).
  { apply Rmult_le_pos; [lra | left; apply Rinv_0_lt_compat, Hn]. }
  assert (Hlo : (0 <= lo)%R).
  { apply Rmult_le_pos; [lra | left; apply Rinv_0_lt_compat, Hm]. }
  assert (Hlsn : (IZR lat_divisions * ls = north - south)%R)
    by (unfold ls; field; lra).
  assert (Hlom : (IZR lon_divisions * lo = east - west)%R)
    by (unfold lo; field; lra).
  repeat split; nra.
Qed.

(** X10. For divisions of at least 1 and a root region with
    south <= north and west <= east, every cell that [get_relevant_bboxes]
    returns is a rectangle inside the root region, and it passed the pruning
    test itself. *)
Theorem get_relevant_bboxes_cells_inside `{GI : GeoIndex} (fuel : nat)
    (root : BBox) (kd : kdtree) (coords : list Coord) (max_area : R)
    (lat_divisions lon_divisions : Z) (cells : list BBox) :
  (1 <= lat_divisions)%Z -> (1 <= lon_divisions)%Z ->
  bbox_within root root ->
  get_relevant_bboxes fuel root kd coords max_area lat_divisions lon_divisions
  = Ok cells ->
  Forall (fun cell =>
            bbox_within cell root /\
            _bbox_contains_gpx_points cell kd coords = Ok true) cells.
Proof.
  intros Hlat Hlon Hroot.
  assert (Hgen : forall fuel bbox cells,
            bbox_within bbox root ->
            get_relevant_bboxes fuel bbox kd coords max_area
              lat_divisions lon_divisions = Ok cells ->
            Forall (fun cell =>
                      bbox_within cell root /\
                      _bbox_contains_gpx_points cell kd coords = Ok true)
                   cells); [|intros H; exact (Hgen _ _ _ Hroot H)].
  clear fuel cells. induction fuel as [|fuel IH]; intros bbox cells Hin;
    cbn [get_relevant_bboxes]; [discriminate|].
  intros H. apply rbind_Ok in H as (b & Hb & H).
  destruct b; cbn [negb] in H; [|injection H as <-; constructor].
  destruct (decide (bbox_area bbox <= max_area)%R).
  - injection H as <-. constructor; [split; assumption | constructor].
  - destruct (subdivide_bbox_cells bbox lat_divisions lon_divisions)
      as (subs & Hsubs & Hcells); [lia | lia |].
    rewrite Hsubs in H. cbn [rbind] in H.
    apply extend_each_Ok in H as (rs & Hrs & ->). simpl.
    apply Forall_concat.
    assert (Hall : Forall (fun sub => bbox_within sub root) subs).
    { apply Forall_forall. intros sub Hsub.
      apply Hcells in Hsub as (i & j & Hi & Hj & ->).
      apply grid_cell_within; assumption. }
    clear Hsubs Hcells.
    induction Hrs as [|sub r subs rs Hr _ IHrs]; constructor.
    + apply (IH sub r); [|exact Hr]. inversion Hall; assumption.
    + apply IHrs. inversion Hall; assumption.
Qed.

(** ** The queries of a run *)

Lemma tag_filters_known (poi_types : list string) :
  Forall known_poi_type poi_types -> exists parts, tag_filters poi_types = Ok parts.
Proof.
  induction 1 as [|t ts Ht _ [parts IH]]; [exists []; reflexivity|].
  cbn [tag_filters]. destruct (dict_get_known AMENITIES t Ht) as [v ->].
  rewrite IH. simpl. eauto.
Qed.

Section Queries.
Context `{GI : GeoIndex}.
Variable post : Request -> result (list POI).
Variable recursion_limit : nat.

(** X11. When the loop over the planned cells returns, it has sent one
    request per cell, in the order of the plan, each with the tag filters of
    the POI types, and it returns the answers appended in that order. *)
Theorem query_each_requests (bboxes : list BBox) (poi_types : list string)
    (kd : kdtree) (pois out : list POI) (sent sent' : list Request) :
  query_each post bboxes poi_types kd pois sent = (Ok out, sent') ->
  exists requests answers,
    sent' = sent ++ requests /\
    req_bbox <$> requests = bboxes /\
    Forall (fun request => tag_filters poi_types = Ok (req_filters request))
           requests /\
    Forall2 (fun request answer => post request = Ok answer) requests answers /\
    out = pois ++ concat answers.
Proof.
  revert pois sent out sent'.
  induction bboxes as [|bbox bboxes IH]; intros pois sent out sent'.
  - intros [= <- <-]. exists [], []. rewrite !app_nil_r.
    repeat split; constructor.
  - cbn [query_each]. unfold io_bind at 1. unfold query_overpass, io_bind, io_lift.
    destruct (tag_filters poi_types) as [parts|e] eqn:Hparts; [|discriminate].
    destruct (post (mkRequest bbox parts)) as [answer|e] eqn:Hpost;
      [|discriminate].
    intros H. apply IH in H as (reqs & answers & -> & Hb & Hf & Ha & ->).
    exists (mkRequest bbox parts :: reqs), (answer :: answers).
    split; [rewrite <- app_assoc; reflexivity|].
    split; [rewrite fmap_cons, Hb; reflexivity|].
    split; [constructor; [first [reflexivity | exact Hparts] | exact Hf]|].
    split; [constructor; [exact Hpost | exact Ha]|].
    cbn [concat]. rewrite app_assoc. reflexivity.
Qed.

(** X12. The first query that fails ends the loop: the requests of the
    cells before it and its own have been sent, none of a later cell, and
    its error is the error of the loop. *)
Theorem query_each_aborts (done todo : list BBox) (bbox : BBox)
    (poi_types parts : list string) (kd : kdtree) (pois : list POI)
    (sent : list Request) (e : exception) :
  tag_filters poi_types = Ok parts ->
  Forall (fun b => exists answer, post (mkRequest b parts) = Ok answer) done ->
  post (mkRequest bbox parts) = Raise e ->
  query_each post (done ++ bbox :: todo) poi_types kd pois sent
  = (Raise e,
     sent ++ ((fun b => mkRequest b parts) <$> done) ++ [mkRequest bbox parts]).
Proof.
  intros Hparts Hdone Hfail. revert pois sent.
  induction Hdone as [|b done [answer Hb] _ IH]; intros pois sent;
    cbn [app query_each]; unfold io_bind at 1;
    unfold query_overpass, io_bind, io_lift; rewrite Hparts.
  - rewrite Hfail. reflexivity.
  - rewrite Hb, IH. simpl. rewrite <- app_assoc. reflexivity.
Qed.

Lemma query_each_sent (bboxes : list BBox) (poi_types : list string)
    (kd : kdtree) (pois out : list POI) (sent sent' : list Request) :
  query_each post bboxes poi_types kd pois sent = (Ok out, sent') ->
  exists requests, sent' = sent ++ requests /\ req_bbox <$> requests = bboxes.
Proof.
  revert pois sent.
  induction bboxes as [|bbox bboxes IH]; intros pois sent.
  - intros [= _ <-]. exists []. rewrite app_nil_r. split; reflexivity.
  - cbn [query_each]. unfold io_bind at 1. unfold query_overpass, io_bind, io_lift.
    destruct (tag_filters poi_types) as [parts|e]; [|discriminate].
    destruct (post (mkRequest bbox parts)) as [answer|e]; [|discriminate].
    intros H. apply IH in H as (reqs & -> & Hb).
    exists (mkRequest bbox parts :: reqs).
    split; [rewrite <- app_assoc; reflexivity|].
    rewrite fmap_cons, Hb. reflexivity.
Qed.

(** X13. Every POI that [process_gpx_and_pois] returns is at a haversine
    distance under [max_distance_m] of some point of the track, and the
    returned GPX object is the one given. *)
Theorem process_pois_near_track (gpx : GPX) (poi_types : list string)
    (max_distance_m max_area : R) (lat_divisions lon_divisions : Z)
    (show_bboxes : bool) (sent sent' : list Request) (gpx' : GPX)
    (filtered_pois : list POI) (cells : option (list BBox)) :
  process_gpx_and_pois post recursion_limit gpx poi_types max_distance_m
    max_area lat_divisions lon_divisions show_bboxes sent
  = (Ok (gpx', filtered_pois, cells), sent') ->
  gpx' = gpx /\
  forall poi, poi ∈ filtered_pois ->
    exists pt, pt ∈ gpx_points gpx /\
      (haversine (poi_lat poi) (poi_lon poi) (latitude pt) (longitude pt)
       < max_distance_m)%R.
Proof.
  intros Hrun.
  destruct (get_bounds gpx max_distance_m) as [bounds|] eqn:Hb.
  - assert (Hne : gpx_points gpx <> []).
    { intros H. apply (get_bounds_None gpx max_distance_m) in H. congruence. }
    rewrite (process_nonempty_track _ _ _ _ _ _ _ _ _ _ bounds Hne Hb) in Hrun.
    destruct (get_relevant_bboxes _ _ _ _ _ _ _) as [bboxes|e]; [|discriminate].
    destruct (query_each _ _ _ _ _ _) as [[raw|e] sent'']; [|discriminate].
    destruct (filter_total (track_coords gpx) max_distance_m
                (deduplicate_pois_by_id raw).1) as (out & Hout & _ & Hiff).
    rewrite Hout in Hrun. injection Hrun as <- <- _ _.
    split; [reflexivity|]. intros poi Hpoi.
    apply Hiff in Hpoi as [_ (idx & tlat & tlon & _ & Hidx & Hd)].
    unfold track_coords in Hidx. rewrite list_lookup_fmap in Hidx.
    destruct (gpx_points gpx !! idx) as [pt|] eqn:Hpt; [|discriminate].
    injection Hidx as <- <-. exists pt.
    split; [apply list_elem_of_lookup; eauto | exact Hd].
  - apply get_bounds_None in Hb.
    rewrite process_empty_track in Hrun by exact Hb.
    injection Hrun as <- <- _ _. split; [reflexivity|].
    intros poi Hpoi. inversion Hpoi.
Qed.

(** X14. With [show_bboxes] true, the list of cells that a run returns is
    the list of the boxes of the requests it sent, in the order it sent
    them. *)
Theorem process_cells_are_queried (gpx : GPX) (poi_types : list string)
    (max_distance_m max_area : R) (lat_divisions lon_divisions : Z)
    (sent sent' : list Request) (gpx' : GPX) (filtered_pois : list POI)
    (cells : option (list BBox)) :
  process_gpx_and_pois post recursion_limit gpx poi_types max_distance_m
    max_area lat_divisions lon_divisions true sent
  = (Ok (gpx', filtered_pois, cells), sent') ->
  exists requests,
    sent' = sent ++ requests /\ cells = Some (req_bbox <$> requests).
Proof.
  intros Hrun.
  destruct (get_bounds gpx max_distance_m) as [bounds|] eqn:Hb.
  - assert (Hne : gpx_points gpx <> []).
    { intros H. apply (get_bounds_None gpx max_distance_m) in H. congruence. }
    rewrite (process_nonempty_track _ _ _ _ _ _ _ _ _ _ bounds Hne Hb) in Hrun.
    destruct (get_relevant_bboxes _ _ _ _ _ _ _) as [bboxes|e]; [|discriminate].
    destruct (query_each _ _ _ _ _ _) as [[raw|e] sent''] eqn:Hq; [|discriminate].
    destruct (filter_pois_near_track _ _ _ _) as [out|e]; [|discriminate].
    injection Hrun as _ _ <- <-.
    apply query_each_sent in Hq as (reqs & -> & <-).
    exists reqs. split; reflexivity.
  - apply get_bounds_None in Hb.
    rewrite process_empty_track in Hrun by exact Hb.
    injection Hrun as _ _ <- <-. exists []. rewrite app_nil_r.
    split; reflexivity.
Qed.

(** X15. A run whose first query fails raises the error of that query,
    having sent that one request only: no later cell is queried and no POI
    is returned. *)
Theorem process_aborts_on_query_failure (gpx : GPX)
    (poi_types parts : list string) (max_distance_m max_area : R)
    (lat_divisions lon_divisions : Z) (show_bboxes : bool)
    (sent : list Request) (bounds cell : BBox) (cells : list BBox)
    (e : exception) :
  get_bounds gpx max_distance_m = Some bounds ->
  get_relevant_bboxes recursion_limit bounds (KDTree (track_coords gpx))
    (track_coords gpx) max_area lat_divisions lon_divisions
  = Ok (cell :: cells) ->
  tag_filters poi_types = Ok parts ->
  post (mkRequest cell parts) = Raise e ->
  process_gpx_and_pois post recursion_limit gpx poi_types max_distance_m
    max_area lat_divisions lon_divisions show_bboxes sent
  = (Raise e, sent ++ [mkRequest cell parts]).
Proof.
  intros Hb Hplan Hparts Hfail.
  assert (Hne : gpx_points gpx <> []).
  { intros H. apply (get_bounds_None gpx max_distance_m) in H. congruence. }
  rewrite (process_nonempty_track _ _ _ _ _ _ _ _ _ _ bounds Hne Hb), Hplan.
  cbn [query_each]. unfold io_bind at 1.
  unfold query_overpass, io_bind, io_lift. rewrite Hparts, Hfail.
  reflexivity.
Qed.
End Queries.

(** ** [haversine] *)

Section Haversine.
Local Open Scope R_scope.

Lemma haversine_unfold (lat1 lon1 lat2 lon2 : R) :
  haversine lat1 lon1 lat2 lon2
  = 6371000 * (2 * atan2 (sqrt (haversine_a lat1 lon1 lat2 lon2))
                         (sqrt (1 - haversine_a lat1 lon1 lat2 lon2))).
Proof. reflexivity. Qed.

Lemma sin2_half (x : R) : sin (x / 2) ^ 2 = (1 - cos x) / 2.
Proof.
  pose proof (cos_2a_sin (x / 2)) as H.
  replace (2 * (x / 2)) with x in H by lra. rewrite H. simpl. lra.
Qed.

Lemma haversine_a_sym (lat1 lon1 lat2 lon2 : R) :
  haversine_a lat1 lon1 lat2 lon2 = haversine_a lat2 lon2 lat1 lon1.
Proof.
  unfold haversine_a. rewrite !sin2_half. unfold radians.
  replace ((lat2 - lat1) * PI / 180) with (- ((lat1 - lat2) * PI / 180)) by lra.
  replace ((lon2 - lon1) * PI / 180) with (- ((lon1 - lon2) * PI / 180)) by lra.
  rewrite !cos_neg. ring.
Qed.

(** X16. [haversine] is symmetric: the distance from a first point to a
    second is the distance from the second to the first. *)
Theorem haversine_symmetric (lat1 lon1 lat2 lon2 : R) :
  haversine lat1 lon1 lat2 lon2 = haversine lat2 lon2 lat1 lon1.
Proof.
  rewrite !haversine_unfold, (haversine_a_sym lat1 lon1 lat2 lon2).
  reflexivity.
Qed.

Lemma haversine_a_range (lat1 lon1 lat2 lon2 : R) :
  0 <= haversine_a lat1 lon1 lat2 lon2 <= 1.
Proof.
  unfold haversine_a. rewrite !sin2_half.
  set (p1 := radians lat1). set (p2 := radians lat2).
  replace (radians (lat2 - lat1)) with (p2 - p1) by (unfold p1, p2, radians; lra).
  pose proof (cos_minus p2 p1) as HK. pose proof (cos_plus p2 p1) as HM.
  pose proof (COS_bound (p2 - p1)) as [HK1 HK2].
  pose proof (COS_bound (p2 + p1)) as [HM1 HM2].
  pose proof (COS_bound (radians (lon2 - lon1))) as [HL1 HL2].
  set (K := cos (p2 - p1)) in *. set (M := cos (p2 + p1)) in *.
  set (L := cos (radians (lon2 - lon1))) in *.
  assert (Hcc : cos p1 * cos p2 = (K + M) / 2) by lra.
  rewrite Hcc. split; nra.
Qed.

Lemma atan2_quadrant (y x : R) : 0 <= y -> 0 <= x -> 0 <= atan2 y x <= PI / 2.
Proof.
  intros Hy Hx. unfold atan2. pose proof PI_RGT_0 as Hpi.
  destruct (decide (0 < x)) as [Hpos|Hnpos].
  - assert (Hq : 0 <= y / x).
    { apply Rmult_le_pos; [exact Hy | left; apply Rinv_0_lt_compat, Hpos]. }
    split.
    + rewrite <- atan_0. destruct Hq as [Hq|<-]; [|lra].
      left. apply atan_increasing, Hq.
    + left. apply atan_bound.
  - destruct (decide (x < 0)); [lra|].
    destruct (decide (0 < y)); [lra|].
    destruct (decide (y < 0)); lra.
Qed.

Lemma haversine_bounds (lat1 lon1 lat2 lon2 : R) :
  0 <= haversine lat1 lon1 lat2 lon2 <= PI * 6371000.
Proof.
  rewrite haversine_unfold.
  destruct (atan2_quadrant (sqrt (haversine_a lat1 lon1 lat2 lon2))
              (sqrt (1 - haversine_a lat1 lon1 lat2 lon2)))
    as [H0 H1]; [apply sqrt_pos | apply sqrt_pos |].
  split; lra.
Qed.

(** X17. The quantity whose square roots [haversine] takes lies between 0
    and 1 for all arguments, so neither [math.sqrt] is given a negative
    number; and the distance returned lies between 0 and half the
    circumference of the sphere, [PI * 6371000] metres. *)
Theorem haversine_range (lat1 lon1 lat2 lon2 : R) :
  0 <= haversine_a lat1 lon1 lat2 lon2 <= 1 /\
  0 <= haversine lat1 lon1 lat2 lon2 <= PI * 6371000.
Proof.
  split.
  - apply haversine_a_range.
  - apply haversine_bounds.
Qed.
End Haversine.

(** ** [add_waypoints_to_gpx] *)

Section WaypointFacts.
Variable title : string -> string.

Lemma add_waypoints_map (waypoints : list GPXWaypoint) (pois : list POI) :
  add_waypoints_to_gpx title waypoints pois
  = waypoints ++ (make_waypoint title <$> pois).
Proof.
  unfold add_waypoints_to_gpx. revert waypoints.
  induction pois as [|poi pois IH]; intros waypoints; simpl.
  - rewrite app_nil_r. reflexivity.
  - rewrite IH, <- app_assoc. reflexivity.
Qed.

Lemma make_waypoint_shape (poi : POI) :
  wpt_latitude (make_waypoint title poi) = poi_lat poi /\
  wpt_longitude (make_waypoint title poi) = poi_lon poi /\
  wpt_name (make_waypoint title poi) = poi_name (poi_tags poi) /\
  (exists label,
     wpt_description (make_waypoint title poi)
     = (poi_name (poi_tags poi) ++ " (" ++ label ++ ")")%string) /\
  wpt_symbol (make_waypoint title poi)
  ∈ ["food"; "meals"; "gas"; "store"; "pizza"; "water-drop"; "generic"]%string.
Proof.
  unfold make_waypoint.
  repeat match goal with
         | |- context [if ?b then _ else _] => destruct b
         end; cbn [wpt_latitude wpt_longitude wpt_name wpt_description wpt_symbol];
    (split; [reflexivity|]); (split; [reflexivity|]); (split; [reflexivity|]);
    (split;
      [first
         [ exists "Bakery"%string; reflexivity
         | exists "Cafe"%string; reflexivity
         | exists "Fuel with Convenience Store"%string; reflexivity
         | exists "Convenience Store"%string; reflexivity
         | exists "Pizza Vending Machine"%string; reflexivity
         | exists "Water"%string; reflexivity
         | exists "Unknown POI Type"%string; reflexivity
         | exists (title (replace_underscores
                            (default "" (tags_get (poi_tags poi) "amenity"))));
           reflexivity
         | exists (title (replace_underscores
                            (default "" (tags_get (poi_tags poi) "shop"))));
           reflexivity
         | exists ("Vending Machine: "
                   ++ title (replace_underscores
                               (default "" (tags_get (poi_tags poi) "vending"))))%string;
           reflexivity ]|]); set_solver.
Qed.

(** X18. [add_waypoints_to_gpx] keeps the waypoints the GPX object has and
    appends one per POI, in the order of the POIs.  The waypoint of a POI is
    at the POI's coordinates, is named by the POI's [name] tag, or
    ["POI sans nom"] without one, its description is that name followed by a
    label in parentheses, and its symbol is one of [food], [meals], [gas],
    [store], [pizza], [water-drop] and [generic]. *)
Theorem add_waypoints_appends (waypoints : list GPXWaypoint) (pois : list POI) :
  exists added,
    add_waypoints_to_gpx title waypoints pois = waypoints ++ added /\
    length added = length pois /\
    forall i poi, pois !! i = Some poi ->
      exists wpt,
        added !! i = Some wpt /\
        wpt_latitude wpt = poi_lat poi /\ wpt_longitude wpt = poi_lon poi /\
        wpt_name wpt = default "POI sans nom"%string
                         (tags_get (poi_tags poi) "name") /\
        (exists label,
           wpt_description wpt = (wpt_name wpt ++ " (" ++ label ++ ")")%string) /\
        wpt_symbol wpt
        ∈ ["food"; "meals"; "gas"; "store"; "pizza"; "water-drop";
           "generic"]%string.
Proof.
  exists (make_waypoint title <$> pois).
  split; [apply add_waypoints_map|]. split; [apply length_fmap|].
  intros i poi Hi. exists (make_waypoint title poi).
  rewrite list_lookup_fmap, Hi.
  destruct (make_waypoint_shape poi) as (Hlat & Hlon & Hname & Hdesc & Hsym).
  rewrite Hname. repeat split; assumption.
Qed.

(** X19. The waypoint of a POI has the symbol [food] exactly when the POI's
    [shop] tag is [bakery], which is exactly when the map draws it with the
    [cutlery] icon.  A POI whose waypoint has the symbol [water-drop] is
    drawn with the blue [tint] icon; the converse fails, since the map tests
    for water before cafes and shops and the waypoints after them. *)
Theorem bakery_and_water_symbols (poi : POI) :
  (wpt_symbol (make_waypoint title poi) = "food"%string
   <-> tags_get (poi_tags poi) "shop" = Some "bakery"%string) /\
  ((poi_icon (poi_tags poi)).2 = "cutlery"%string
   <-> tags_get (poi_tags poi) "shop" = Some "bakery"%string) /\
  (wpt_symbol (make_waypoint title poi) = "water-drop"%string ->
   poi_icon (poi_tags poi) = ("blue", "tint")%string) /\
  (exists cafe_at_spring,
     poi_icon (poi_tags cafe_at_spring) = ("blue", "tint")%string /\
     wpt_symbol (make_waypoint title cafe_at_spring) = "meals"%string).
Proof.
  assert (Hbakery : forall tag, tag_is tag "bakery" = true
                                <-> tag = Some "bakery"%string).
  { intros [s|]; simpl; [|split; discriminate].
    rewrite String.eqb_eq. split; congruence. }
  unfold make_waypoint, poi_icon. rewrite <- !Hbakery.
  destruct (tag_is (tags_get (poi_tags poi) "shop") "bakery").
  { repeat split; try reflexivity; try discriminate.
    exists (mkPOI None 0 0 [("amenity", "cafe"); ("natural", "spring")]%string).
    split; reflexivity. }
  destruct (is_water (poi_tags poi)) eqn:Hw.
  - repeat split; try discriminate; try reflexivity.
    + repeat match goal with
             | |- context [if ?b then _ else _] => destruct b
             end; discriminate.
    + exists (mkPOI None 0 0 [("amenity", "cafe"); ("natural", "spring")]%string).
      split; reflexivity.
  - repeat match goal with
           | |- context [if ?b then _ else _] => destruct b
           end;
      (repeat split; try discriminate;
       try (exists (mkPOI None 0 0
                      [("amenity", "cafe"); ("natural", "spring")]%string);
            split; reflexivity)).
Qed.
End WaypointFacts.

(** ** [display_gpx_on_map] *)

Lemma py_mean_Raise (values : list R) :
  py_mean values = Raise ZeroDivisionError <-> values = [].
Proof. destruct values; simpl; split; congruence. Qed.



(** X20. [display_gpx_on_map] raises [ZeroDivisionError] exactly when the
    track has no point, whatever the POIs and the boxes; so the result that
    [process_gpx_and_pois] returns for a track without points cannot be
    drawn. *)
Theorem display_requires_track_points `{GI : GeoIndex}
    (post : Request -> result (list POI)) (recursion_limit : nat)
    (data : GPX) (pois : list POI) (bboxes_to_display : option (list BBox)) :
  (display_gpx_on_map data pois bboxes_to_display = Raise ZeroDivisionError
   <-> gpx_points data = []) /\
  (gpx_points data <> [] ->
   exists folium_map,
     display_gpx_on_map data pois bboxes_to_display = Ok folium_map) /\
  (gpx_points data = [] ->
   forall poi_types max_distance_m max_area lat_divisions lon_divisions
          show_bboxes sent,
   exists gpx' filtered_pois cells sent',
     process_gpx_and_pois post recursion_limit data poi_types max_distance_m
       max_area lat_divisions lon_divisions show_bboxes sent
     = (Ok (gpx', filtered_pois, Some cells), sent') /\
     display_gpx_on_map gpx' filtered_pois (Some cells)
     = Raise ZeroDivisionError).
Proof.
  assert (Hempty : forall ps bs, gpx_points data = [] ->
            display_gpx_on_map data ps bs = Raise ZeroDivisionError).
  { intros ps bs H. unfold display_gpx_on_map. rewrite H. reflexivity. }
  assert (Hfull : forall ps bs, gpx_points data <> [] ->
            exists m, display_gpx_on_map data ps bs = Ok m).
  { intros ps bs H. unfold display_gpx_on_map.
    destruct (gpx_points data) as [|pt pts]; [contradiction|].
    simpl. eauto. }
  split; [split; [|apply Hempty]|split; [apply Hfull|]].
  - intros Hraise. destruct (gpx_points data) as [|pt pts] eqn:Hpts;
      [reflexivity|].
    destruct (Hfull pois bboxes_to_display) as [m Hm]; [congruence|].
    congruence.
  - intros Hnil poi_types d area lat lon show sent.
    exists data, [], [], sent.
    split; [apply process_empty_track, Hnil | apply Hempty, Hnil].
Qed.


(** ** Further edge cases of the pipeline *)

(** X22. With a [max_distance_m] of 0 or less the proximity filter keeps
    nothing, since no distance is under it, and raises nothing; so every run
    of [process_gpx_and_pois] that returns with such a distance returns no
    POI. *)
Theorem nonpositive_distance_keeps_nothing `{GI : GeoIndex}
    (post : Request -> result (list POI)) (recursion_limit : nat)
    (max_distance_m : R) :
  (max_distance_m <= 0)%R ->
  (forall pts pois,
     filter_pois_near_track pts (KDTree pts) pois max_distance_m = Ok []) /\
  (forall gpx poi_types max_area lat_divisions lon_divisions show_bboxes sent
          gpx' filtered_pois cells sent',
     process_gpx_and_pois post recursion_limit gpx poi_types max_distance_m
       max_area lat_divisions lon_divisions show_bboxes sent
     = (Ok (gpx', filtered_pois, cells), sent') ->
     filtered_pois = []).
Proof.
  intros Hd.
  assert (Hfilter : forall pts pois,
            filter_pois_near_track pts (KDTree pts) pois max_distance_m
            = Ok []).
  { intros pts pois.
    destruct (filter_total pts max_distance_m pois) as (out & Hout & _ & Hiff).
    rewrite Hout. f_equal. destruct out as [|poi out]; [reflexivity|].
    exfalso. destruct (proj1 (Hiff poi)) as [_ (idx & tlat & tlon & _ & _ & Hnear)];
      [left|].
    destruct (haversine_bounds (poi_lat poi) (poi_lon poi) tlat tlon)
      as [H0 _]. lra. }
  split; [exact Hfilter|].
  intros gpx poi_types max_area lat lon show sent gpx' filtered cells sent' Hrun.
  destruct (get_bounds gpx max_distance_m) as [bounds|] eqn:Hb.
  - assert (Hne : gpx_points gpx <> []).
    { intros H. apply (get_bounds_None gpx max_distance_m) in H. congruence. }
    rewrite (process_nonempty_track _ _ _ _ _ _ _ _ _ _ bounds Hne Hb) in Hrun.
    destruct (get_relevant_bboxes _ _ _ _ _ _ _) as [bboxes|e]; [|discriminate].
    destruct (query_each _ _ _ _ _ _) as [[raw|e] sent'']; [|discriminate].
    rewrite Hfilter in Hrun. injection Hrun as _ <- _ _. reflexivity.
  - apply get_bounds_None in Hb.
    rewrite process_empty_track in Hrun by exact Hb.
    injection Hrun as _ <- _ _. reflexivity.
Qed.

Lemma deduplicate_unique (pois : list POI) :
  NoDup (poi_id <$> pois) ->
  (forall p, p ∈ pois -> is_Some (poi_id p)) ->
  deduplicate_pois_by_id pois = (pois, []).
Proof.
  induction pois as [|p l IH] using rev_ind; [reflexivity|].
  rewrite fmap_app. intros Hnodup Hids.
  apply NoDup_app in Hnodup as (Hl & Hfresh & _).
  rewrite deduplicate_snoc, IH; [|exact Hl|].
  - destruct (Hids p) as [k Hk]; [apply elem_of_app; right; left|].
    unfold kept_of, warned_of. rewrite Hk.
    rewrite decide_False; [rewrite app_nil_r; reflexivity|].
    intros Hin. apply (Hfresh (Some k) Hin). simpl. rewrite Hk. left.
  - intros q Hq. apply Hids, elem_of_app. left. exact Hq.
Qed.

(** X23. Deduplicating the output of [deduplicate_pois_by_id] changes
    nothing and warns about nothing. *)
Theorem deduplicate_idempotent (pois : list POI) :
  deduplicate_pois_by_id (deduplicate_pois_by_id pois).1
  = ((deduplicate_pois_by_id pois).1, []).
Proof.
  apply deduplicate_unique; [apply deduplicate_NoDup|].
  intros p Hp. apply (deduplicate_present pois p Hp).
Qed.

(** X24. A region whose rectangle grown by 5% holds no track point is
    pruned: [get_relevant_bboxes] returns the empty list for it whatever its
    area and whatever the divisions, 0 included, which are not read. *)
Theorem get_relevant_bboxes_prunes `{GI : GeoIndex} (fuel : nat) (bbox : BBox)
    (pts : list Coord) (max_area : R) (lat_divisions lon_divisions : Z) :
  (forall p, p ∈ pts -> ~ in_bbox p (dilated bbox)) ->
  get_relevant_bboxes (S fuel) bbox (KDTree pts) pts max_area
    lat_divisions lon_divisions = Ok [].
Proof.
  intros Hout. cbn [get_relevant_bboxes].
  destruct (bbox_contains_dilated bbox pts) as (b & -> & Hb). cbn [rbind].
  destruct b; [|reflexivity].
  destruct (proj1 Hb eq_refl) as (p & Hp & Hin). destruct (Hout p Hp Hin).
Qed.

(** X25. For a positive [max_distance_m], a POI that sits on a point of the
    track is kept by the proximity filter. *)
Theorem filter_keeps_poi_on_track `{GI : GeoIndex} (pts : list Coord)
    (pois : list POI) (poi : POI) (max_distance_m : R) :
  (0 < max_distance_m)%R ->
  (poi_lat poi, poi_lon poi) ∈ pts ->
  poi ∈ pois ->
  exists out,
    filter_pois_near_track pts (KDTree pts) pois max_distance_m = Ok out /\
    poi ∈ out.
Proof.
  intros Hd Hon Hpoi.
  destruct (filter_total pts max_distance_m pois) as (out & Hout & _ & Hiff).
  exists out. split; [exact Hout|]. apply Hiff. split; [exact Hpoi|].
  apply list_elem_of_lookup in Hon as [idx Hidx].
  exists idx, (poi_lat poi), (poi_lon poi). split; [|split; [exact Hidx|]].
  - apply query_ball_point_spec. exists (poi_lat poi, poi_lon poi).
    split; [exact Hidx|]. unfold euclid, angular_margin. cbn [fst snd].
    replace ((poi_lat poi - poi_lat poi) ^ 2 + (poi_lon poi - poi_lon poi) ^ 2)%R
      with 0%R by ring.
    rewrite sqrt_0. lra.
  - rewrite haversine_same_point. exact Hd.
Qed.

(** * The further properties at concrete inputs *)

Lemma subdivide_bbox_row_major_at_sample :
  ((2 <> 0)%Z /\ (3 <> 0)%Z /\ 1 < Z.to_nat 2 /\ 2 < Z.to_nat 3) /\
  exists subs,
    _subdivide_bbox ((-1)%R, (-1)%R, 1%R, 1%R) 2 3 = Ok subs /\
    subs !! (1 * Z.to_nat 3 + 2)
    = Some (grid_cell ((-1)%R, (-1)%R, 1%R, 1%R) 2 3 (Z.of_nat 1) (Z.of_nat 2)).
Proof.
  split; [repeat split; lia|].
  apply (subdivide_bbox_row_major ((-1)%R, (-1)%R, 1%R, 1%R) 2 3 1 2); lia.
Defined.

Lemma subdivide_bbox_area_sum_at_sample :
  ((1 <= 2)%Z /\ (1 <= 3)%Z) /\
  exists subs,
    _subdivide_bbox ((-1)%R, (-1)%R, 1%R, 1%R) 2 3 = Ok subs /\
    Rsum (bbox_area <$> subs) = bbox_area ((-1)%R, (-1)%R, 1%R, 1%R).
Proof.
  split; [split; lia|].
  apply (subdivide_bbox_area_sum ((-1)%R, (-1)%R, 1%R, 1%R) 2 3); lia.
Defined.

Lemma sample_plan (fuel : nat) (lat_divisions lon_divisions : Z) :
  get_relevant_bboxes (GI := ScanIndex) (S fuel) sample_bounds [(0%R, 0%R)]
    [(0%R, 0%R)] 0.5 lat_divisions lon_divisions = Ok [sample_bounds].
Proof.
  apply (small_root_plan (GI := ScanIndex) sample_gpx 100 0.5 _ _ fuel
           sample_bounds);
    [discriminate | lra | reflexivity | unfold sample_bounds, bbox_area; lra].
Qed.

Lemma get_relevant_bboxes_limit_irrelevant_at_sample :
  get_relevant_bboxes (GI := ScanIndex) 1000 sample_bounds [(0%R, 0%R)]
    [(0%R, 0%R)] 0.5 2 2 = Ok [sample_bounds].
Proof.
  apply (get_relevant_bboxes_limit_irrelevant (GI := ScanIndex) 1 1000
           _ _ _ _ _ _ _ (sample_plan 0 2 2)).
  lia.
Defined.

Lemma unit_square_holds_origin :
  (0%R, 0%R) ∈ [(0%R, 0%R)] /\
  in_bbox (0%R, 0%R) ((-1)%R, (-1)%R, 1%R, 1%R) /\
  (0.5 < bbox_area ((-1)%R, (-1)%R, 1%R, 1%R))%R.
Proof.
  split; [left|]. split; [unfold in_bbox; simpl; lra|].
  unfold bbox_area. lra.
Qed.

Lemma get_relevant_bboxes_one_by_one_at_sample :
  ((0%R, 0%R) ∈ [(0%R, 0%R)] /\
   in_bbox (0%R, 0%R) ((-1)%R, (-1)%R, 1%R, 1%R) /\
   (0.5 < bbox_area ((-1)%R, (-1)%R, 1%R, 1%R))%R) /\
  get_relevant_bboxes (GI := ScanIndex) 1000 ((-1)%R, (-1)%R, 1%R, 1%R)
    [(0%R, 0%R)] [(0%R, 0%R)] 0.5 1 1 = Raise RecursionError.
Proof.
  split; [exact unit_square_holds_origin|].
  destruct unit_square_holds_origin as (Hp & Hin & Hlarge).
  exact (get_relevant_bboxes_one_by_one (GI := ScanIndex) 1000 _ _ _ _
           Hp Hin Hlarge).
Defined.

Lemma get_relevant_bboxes_negative_divisions_at_sample :
  ((-2 <> 0)%Z /\ (2 <> 0)%Z /\ ((-2 < 0)%Z \/ (2 < 0)%Z)) /\
  get_relevant_bboxes (GI := ScanIndex) 1000 ((-1)%R, (-1)%R, 1%R, 1%R)
    [(0%R, 0%R)] [(0%R, 0%R)] 0.5 (-2) 2 = Ok [].
Proof.
  split; [repeat split; lia|].
  destruct unit_square_holds_origin as (Hp & Hin & Hlarge).
  apply (get_relevant_bboxes_negative_divisions (GI := ScanIndex) 999 _ _ _ _
           (-2) 2 Hp Hin Hlarge); lia.
Defined.

Lemma get_relevant_bboxes_cells_inside_at_sample :
  ((1 <= 2)%Z /\
   bbox_within ((-1)%R, (-1)%R, 1%R, 1%R) ((-1)%R, (-1)%R, 1%R, 1%R)) /\
  exists cells,
    get_relevant_bboxes (GI := ScanIndex)
      (S (depth_bound (bbox_area ((-1)%R, (-1)%R, 1%R, 1%R) / 0.5)))
      ((-1)%R, (-1)%R, 1%R, 1%R) [(0%R, 0%R)] [(0%R, 0%R)] 0.5 2 2 = Ok cells /\
    Forall (fun cell =>
              bbox_within cell ((-1)%R, (-1)%R, 1%R, 1%R) /\
              _bbox_contains_gpx_points (GI := ScanIndex) cell [(0%R, 0%R)]
                [(0%R, 0%R)] = Ok true) cells.
Proof.
  assert (Hroot : bbox_within ((-1)%R, (-1)%R, 1%R, 1%R)
                    ((-1)%R, (-1)%R, 1%R, 1%R))
    by (unfold bbox_within; lra).
  split; [split; [lia | exact Hroot]|].
  destruct (get_relevant_bboxes_enough_fuel (GI := ScanIndex) [(0%R, 0%R)]
              ((-1)%R, (-1)%R, 1%R, 1%R) 0.5 2 2
              (S (depth_bound (bbox_area ((-1)%R, (-1)%R, 1%R, 1%R) / 0.5))))
    as [cells Hcells]; [lra | lia | lia | lia |].
  exists cells. split; [exact Hcells|].
  refine (get_relevant_bboxes_cells_inside (GI := ScanIndex) _ _ _ _ _ _ _ _
            _ _ Hroot Hcells); lia.
Defined.

Lemma query_each_requests_at_sample :
  exists requests answers,
    [] ++ [sample_request] = [] ++ requests /\
    req_bbox <$> requests = [sample_bounds] /\
    Forall (fun request =>
              tag_filters ["water"%string] = Ok (req_filters request))
           requests /\
    Forall2 (fun request answer => sample_post request = Ok answer)
            requests answers /\
    [sample_poi (Some 1%Z); sample_poi (Some 2%Z); sample_poi (Some 1%Z);
     sample_poi None] = [] ++ concat answers.
Proof.
  apply (query_each_requests (GI := ScanIndex) sample_post [sample_bounds]
           ["water"%string] [(0%R, 0%R)] [] _ [] _).
  exact (query_each_single (GI := ScanIndex) sample_post sample_bounds
           ["water"%string] ["[amenity=drinking_water]"%string] [(0%R, 0%R)] []
           eq_refl).
Defined.

Lemma query_each_aborts_at_sample :
  query_each (GI := ScanIndex) (fun _ => Raise RequestException)
    ([] ++ sample_bounds :: [sample_bounds]) ["water"%string] [(0%R, 0%R)] [] []
  = (Raise RequestException,
     [] ++ ((fun b => mkRequest b ["[amenity=drinking_water]"%string]) <$> [])
        ++ [sample_request]).
Proof.
  apply (query_each_aborts (GI := ScanIndex) (fun _ => Raise RequestException)
           [] [sample_bounds] sample_bounds ["water"%string]
           ["[amenity=drinking_water]"%string]);
    [reflexivity | constructor | reflexivity].
Defined.

Lemma process_pois_near_track_at_sample :
  sample_gpx = sample_gpx /\
  forall poi, poi ∈ [sample_poi (Some 1%Z); sample_poi (Some 2%Z)] ->
    exists pt, pt ∈ gpx_points sample_gpx /\
      (haversine (poi_lat poi) (poi_lon poi) (latitude pt) (longitude pt)
       < 100)%R.
Proof.
  exact (process_pois_near_track (GI := ScanIndex) sample_post 1000
           _ _ _ _ _ _ _ _ _ _ _ _ (sample_run 999 2 2 true)).
Defined.

Lemma process_cells_are_queried_at_sample :
  exists requests,
    [sample_request] = [] ++ requests /\
    Some [sample_bounds] = Some (req_bbox <$> requests).
Proof.
  exact (process_cells_are_queried (GI := ScanIndex) sample_post 1000
           _ _ _ _ _ _ _ _ _ _ _ (sample_run 999 2 2 true)).
Defined.

Lemma process_aborts_on_query_failure_at_sample :
  process_gpx_and_pois (GI := ScanIndex) (fun _ => Raise RequestException) 1000
    sample_gpx ["water"%string] 100 0.5 2 2 true []
  = (Raise RequestException, [] ++ [sample_request]).
Proof.
  apply (process_aborts_on_query_failure (GI := ScanIndex)
           (fun _ => Raise RequestException) 1000 sample_gpx ["water"%string]
           ["[amenity=drinking_water]"%string] 100 0.5 2 2 true []
           sample_bounds sample_bounds []);
    [reflexivity | apply (sample_plan 999 2 2) | reflexivity | reflexivity].
Defined.


Lemma nonpositive_distance_keeps_nothing_at_sample :
  (0 <= 0)%R /\
  filter_pois_near_track (GI := ScanIndex) [(0%R, 0%R)] [(0%R, 0%R)]
    [sample_poi (Some 1%Z)] 0 = Ok [].
Proof.
  split; [lra|].
  apply (nonpositive_distance_keeps_nothing (GI := ScanIndex) sample_post 1000 0).
  lra.
Defined.

Lemma get_relevant_bboxes_prunes_at_sample :
  get_relevant_bboxes (GI := ScanIndex) 1000 ((-1)%R, (-1)%R, 1%R, 1%R)
    [(10%R, 10%R)] [(10%R, 10%R)] 0.5 0 0 = Ok [].
Proof.
  apply (get_relevant_bboxes_prunes (GI := ScanIndex) 999).
  intros p Hp. apply list_elem_of_singleton in Hp. subst p.
  unfold in_bbox, dilated. simpl. lra.
Defined.

Lemma filter_keeps_poi_on_track_at_sample :
  ((0 < 100)%R /\
   (poi_lat (sample_poi (Some 1%Z)), poi_lon (sample_poi (Some 1%Z)))
   ∈ [(0%R, 0%R)]) /\
  exists out,
    filter_pois_near_track (GI := ScanIndex) [(0%R, 0%R)] [(0%R, 0%R)]
      [sample_poi (Some 1%Z)] 100 = Ok out /\
    sample_poi (Some 1%Z) ∈ out.
Proof.
  split; [split; [lra | left]|].
  apply (filter_keeps_poi_on_track (GI := ScanIndex)); [lra | left | left].
Defined.
